(** * The folder upload pipeline of [packages/cli-lib/lib/uploadFolder.js]

    A shallow embedding of [getFilesByType], [uploadFolder] and
    [hasUploadErrors], and the properties of the pipeline: the classification
    of files into five batches, the barrier between batches, the single retry
    pass and the propagation of errors.

    The collaborators that live in other modules ([walk], the path helpers,
    [convertFieldsJs], [upload], [isFatalError], ...) are the fields of the
    class [Host]; every statement holds for every host.

    What the embedding keeps: the order of the pushes in [getFilesByType] and
    the throw that leaves its loop; the shared array [failures]; the pool of
    [p-queue] as far as [await queue.addAll(tasks)] shows it (tasks start in
    the order they were added, at most ten are in flight, they settle in any
    order, the array of values keeps the order of the tasks, the first
    rejection rejects the whole); the answers of the store, which may depend
    on everything uploaded before, each answer being read when its promise
    settles. What it leaves out: the calls of [logger],
    [handleFieldErrors] and [logApiUploadErrorInstance], which report and
    return; a rejection of [walk]; tasks of another run that are still in the
    pool when a run starts. *)

From Stdlib Require Import ZArith Ascii.
From stdpp Require Import list strings sorting.

Local Open Scope string_scope.
Local Open Scope list_scope.
Local Open Scope nat_scope.

(** ** Strings *)

(** [String.prototype.endsWith]. *)
Definition endsWith (s suffix : string) : bool :=
  let n := String.length s in
  let m := String.length suffix in
  if Nat.leb m n then String.eqb (String.substring (n - m) m s) suffix else false.

(** Modelled from the spec: [escapeRegExp] of [./escapeRegExp] is not among
    the sources. The destination path builder of the spec "strips a known
    source-root prefix from a file path", so the pattern
    [new RegExp(`^${escapeRegExp(src)}`)] is taken to match the literal text
    of [src] at the start of a string and nothing else. This is
    [file.replace(regex, '')] for that pattern: the leading occurrence of
    [src] is replaced by nothing, and without one the string is returned as
    it is. *)
Definition replaceLeading (src file : string) : string :=
  if String.prefix src file
  then String.substring (String.length src) (String.length file - String.length src) file
  else file.

(** JavaScript truthiness of a string: every string but the empty one. *)
Definition truthy (s : string) : bool := negb (String.eqb s "").

(** The separator of the paths of Windows, character 92. *)
Definition backslash : ascii := Ascii.ascii_of_nat 92.

(** Modelled from the spec: [convertToUnixPath] of [../path] is not among
    the sources. The destination path builder of the spec "normalizes
    separators to the forward-slash convention the remote store expects
    regardless of host OS", so every backslash of the path is taken to become
    a forward slash, and every other character to stay as it is. *)
Fixpoint convertToUnixPath (path : string) : string :=
  match path with
  | EmptyString => EmptyString
  | String c rest =>
      String (if Ascii.eqb c backslash then "/"%char else c) (convertToUnixPath rest)
  end.

(** ** The host environment *)

(** An entry of [fs.readdirSync(dir, { withFileTypes: true })]. *)
Record Dirent := { name : string; isDirectory : bool }.

Class Host := {
  (** thrown values, the remote store and the pool's timing, option bags *)
  exn : Type;
  World : Type;
  Options : Type;
  QueryValues : Type;
  (** [./walk] *)
  walk : string → list string;
  (** [../path] *)
  isAllowedExtension : string → bool;
  splitLocalPath : string → list string;
  getExt : string → string;
  (** the predicate returned by [createIgnoreFilter()] of [../ignoreRules]:
      [true] keeps the file *)
  createIgnoreFilter : string → bool;
  (** [path.dirname], [path.join] and [fs.readdirSync] of the host *)
  dirname : string → string;
  join : string → string → string;
  readdirSync : string → list Dirent;
  (** [convertFieldsJs(file, yargs.argv.options)] of [./handleFieldsJs]:
      the path of the artifact, or the error it throws *)
  convertFieldsJs : string → exn + string;
  (** [../fileMapper] and [../api/fileMapper]; [upload] answers [None] when
      the promise is fulfilled and [Some error] when it is rejected *)
  getFileMapperQueryValues : Options → QueryValues;
  upload : Z → string → string → QueryValues → World → option exn * World;
  (** [../errorHandlers] *)
  isFatalError : exn → bool;
  (** the order in which the promises in flight settle: given the world and
      the number [n] of promises in flight, the position (taken modulo [n])
      of the next one to settle *)
  settles : World → nat → nat;
}.

(** ** The pipeline *)

Module FileUploadResultType.
Definition SUCCESS : string := "SUCCESS".
Definition FAILURE : string := "FAILURE".
End FileUploadResultType.

Section UploadFolder.
Context `{host : Host}.

(** *** getFilesByType *)

(** The five arrays that [getFilesByType] fills. *)
Record Buckets := {
  moduleFiles : list string;
  cssAndJsFiles : list string;
  otherFiles : list string;
  templateFiles : list string;
  jsonFiles : list string;
}.

Definition noFiles : Buckets :=
  {| moduleFiles := []; cssAndJsFiles := []; otherFiles := [];
     templateFiles := []; jsonFiles := [] |}.

Definition pushModule (file : string) (b : Buckets) : Buckets :=
  {| moduleFiles := moduleFiles b ++ [file]; cssAndJsFiles := cssAndJsFiles b;
     otherFiles := otherFiles b; templateFiles := templateFiles b;
     jsonFiles := jsonFiles b |}.
Definition pushCssAndJs (file : string) (b : Buckets) : Buckets :=
  {| moduleFiles := moduleFiles b; cssAndJsFiles := cssAndJsFiles b ++ [file];
     otherFiles := otherFiles b; templateFiles := templateFiles b;
     jsonFiles := jsonFiles b |}.
Definition pushOther (file : string) (b : Buckets) : Buckets :=
  {| moduleFiles := moduleFiles b; cssAndJsFiles := cssAndJsFiles b;
     otherFiles := otherFiles b ++ [file]; templateFiles := templateFiles b;
     jsonFiles := jsonFiles b |}.
Definition pushTemplate (file : string) (b : Buckets) : Buckets :=
  {| moduleFiles := moduleFiles b; cssAndJsFiles := cssAndJsFiles b;
     otherFiles := otherFiles b; templateFiles := templateFiles b ++ [file];
     jsonFiles := jsonFiles b |}.
Definition pushJson (file : string) (b : Buckets) : Buckets :=
  {| moduleFiles := moduleFiles b; cssAndJsFiles := cssAndJsFiles b;
     otherFiles := otherFiles b; templateFiles := templateFiles b;
     jsonFiles := jsonFiles b ++ [file] |}.

(** [parts.find(part => part.endsWith('.module'))], and the test
    [if (moduleFolder)] on what it returns. *)
Definition moduleFolder (file : string) : option string :=
  List.find (fun part => endsWith part ".module") (splitLocalPath file).

Definition inModuleFolder (file : string) : bool :=
  match moduleFolder file with
  | Some part => truthy part
  | None => false
  end.

(** [parts[parts.length - 1]] *)
Definition fileName (file : string) : string :=
  List.last (splitLocalPath file) "".

(** The names of the entries of the file's directory that are not
    directories. *)
Definition siblings (file : string) : list string :=
  map name (List.filter (fun item => negb (isDirectory item))
                        (readdirSync (dirname file))).

(** [dir.includes('fields.js')] *)
Definition includes (x : string) (l : list string) : bool :=
  existsb (String.eqb x) l.

(** The body of the [forEach] callback: the buckets after [file], or the
    error that [convertFieldsJs] threw. *)
Definition sortFile (b : Buckets) (file : string) : exn + Buckets :=
  let extension := getExt file in
  if inModuleFolder file then
    if String.eqb (fileName file) "fields.js" then
      match convertFieldsJs file with
      | inl e => inl e
      | inr converted => inr (pushModule converted b)
      end
    else if String.eqb (getExt file) "json" then
      let b1 := if String.eqb (fileName file) "meta.json"
                then pushModule file b else b in
      if String.eqb (fileName file) "fields.json" then
        if negb (includes "fields.js" (siblings file))
        then inr (pushModule file b1) else inr b1
      else inr b1
    else inr (pushModule file b)
  else if String.eqb extension "js" || String.eqb extension "css" then
    inr (pushCssAndJs file b)
  else if String.eqb extension "html" then inr (pushTemplate file b)
  else if String.eqb extension "json" then inr (pushJson file b)
  else inr (pushOther file b).

(** [files.forEach(...)]: a throw leaves the loop. *)
Fixpoint sortFiles (b : Buckets) (files : list string) : exn + Buckets :=
  match files with
  | [] => inr b
  | file :: rest =>
      match sortFile b file with
      | inl e => inl e
      | inr b' => sortFiles b' rest
      end
  end.

(** The buckets of two runs of the loop, one after the other. *)
Definition joinBuckets (b1 b2 : Buckets) : Buckets :=
  {| moduleFiles := moduleFiles b1 ++ moduleFiles b2;
     cssAndJsFiles := cssAndJsFiles b1 ++ cssAndJsFiles b2;
     otherFiles := otherFiles b1 ++ otherFiles b2;
     templateFiles := templateFiles b1 ++ templateFiles b2;
     jsonFiles := jsonFiles b1 ++ jsonFiles b2 |}.

Definition batches (b : Buckets) : list (list string) :=
  [otherFiles b; moduleFiles b; cssAndJsFiles b; templateFiles b; jsonFiles b].

(** The files of the four buckets that are filled by extension. *)
Definition byExtension (b : Buckets) : list string :=
  otherFiles b ++ cssAndJsFiles b ++ templateFiles b ++ jsonFiles b.

(** What the loop pushes for [file] alone: nothing, or one path. *)
Definition placed (file : string) : list string :=
  match sortFile noFiles file with
  | inl _ => []
  | inr b => concat (batches b)
  end.

(** The JSON files of a module folder that the loop leaves out: all but
    [meta.json] and a [fields.json] with no [fields.js] next to it. *)
Definition leftOut (file : string) : bool :=
  inModuleFolder file
  && negb (String.eqb (fileName file) "fields.js")
  && String.eqb (getExt file) "json"
  && negb (String.eqb (fileName file) "meta.json")
  && negb (String.eqb (fileName file) "fields.json"
           && negb (includes "fields.js" (siblings file))).

Definition getFilesByType (files : list string) : exn + list (list string) :=
  match sortFiles noFiles files with
  | inl e => inl e
  | inr b => inr (batches b)
  end.

(** *** The worker pool *)

(** What a run leaves behind. [Submitted] and [Settled] are ghost events:
    a task is added to the pool, the promise of a task is settled ([None]:
    the upload went through, [Some error]: it was rejected). [batch] is the
    position of the batch in the run: 0 to 4 for the arrays of
    [getFilesByType], 5 for the retries. *)
Inductive Event :=
  | Submitted (batch : nat) (file destPath : string)
  | Settled (batch : nat) (file destPath : string) (answer : option exn).

(** An upload that settled: the file, its destination and the answer. *)
Definition settledEvent (b : nat) (a : string * string * option exn) : Event :=
  Settled b a.1.1 a.1.2 a.2.

Definition submittedEvent (b : nat) (entry : string * string) : Event :=
  Submitted b entry.1 entry.2.

(** The state a run threads through its tasks: the world of the host, the
    array [failures] of [{ file, destPath }] entries, and the events so far. *)
Record State := {
  world : World;
  failures : list (string * string);
  trace : list Event;
}.

Inductive Settlement (V : Type) :=
  | Fulfilled (value : V)
  | Rejected (reason : exn).
Arguments Fulfilled {V} value.
Arguments Rejected {V} reason.

(** An async function handed to the pool. *)
Abbreviation Task V := (State → Settlement V * State) (only parsing).

(** [new PQueue({ concurrency: 10 })] *)
Definition concurrency : nat := 10.

(** The pool starts tasks in the order they were added, at most
    [concurrency] at a time, so the tasks in flight are the first
    [concurrency] of those that have not settled. One of them settles next;
    its value goes to its slot of the array that [Promise.all] resolves to,
    and a rejection rejects the whole. *)
Fixpoint drain {V} (fuel : nat) (pending : list (nat * Task V))
    (slots : list (option V)) (st : State) : (exn + list (option V)) * State :=
  match fuel with
  | 0 => (inr slots, st)
  | S fuel' =>
      let inFlight := Nat.min concurrency (length pending) in
      let next := settles (world st) inFlight `mod` inFlight in
      match pending !! next with
      | None => (inr slots, st)
      | Some (i, task) =>
          match task st with
          | (Rejected e, st') => (inl e, st')
          | (Fulfilled v, st') =>
              drain fuel' (delete next pending) (<[i := Some v]> slots) st'
          end
      end
  end.

(** [await queue.addAll(tasks)] *)
Definition addAll {V} (tasks : list (Task V)) (st : State)
    : (exn + list V) * State :=
  match drain (length tasks) (imap pair tasks)
              (replicate (length tasks) None) st with
  | (inl e, st') => (inl e, st')
  | (inr slots, st') => (inr (omap id slots), st')
  end.

(** *** uploadFolder *)

Record UploadResult := {
  resultType : string;
  error : option exn;
  file : string;
}.

Definition record (ev : Event) (st : State) : State :=
  {| world := world st; failures := failures st; trace := trace st ++ [ev] |}.

Definition setWorld (w : World) (st : State) : State :=
  {| world := w; failures := failures st; trace := trace st |}.

(** [failures.push({ file, destPath })] *)
Definition pushFailure (entry : string * string) (st : State) : State :=
  {| world := world st; failures := failures st ++ [entry]; trace := trace st |}.

Section Run.
Variables (accountId : Z) (src dest : string) (options : Options).

Definition apiOptions : QueryValues := getFileMapperQueryValues options.

(** [convertToUnixPath(path.join(dest, file.replace(regex, '')))] *)
Definition destPathOf (file : string) : string :=
  let relativePath := replaceLeading src file in
  convertToUnixPath (join dest relativePath).

(** [uploadFile(file)], the task of the main pass; [batch] only labels the
    event of the task. *)
Definition uploadFile (batch : nat) (file : string) : Task unit :=
  let destPath := destPathOf file in
  fun st =>
    match upload accountId file destPath apiOptions (world st) with
    | (None, w) =>
        (Fulfilled (), record (Settled batch file destPath None) (setWorld w st))
    | (Some e, w) =>
        let st' := record (Settled batch file destPath (Some e)) (setWorld w st) in
        if isFatalError e then (Rejected e, st')
        else (Fulfilled (), pushFailure (file, destPath) st')
    end.

(** The task of the retry pass, made from an entry of [failures]. *)
Definition retryFile (entry : string * string) : Task UploadResult :=
  let '(file, destPath) := entry in
  fun st =>
    match upload accountId file destPath apiOptions (world st) with
    | (None, w) =>
        (Fulfilled {| resultType := FileUploadResultType.SUCCESS;
                      error := None; file := file |},
         record (Settled 5 file destPath None) (setWorld w st))
    | (Some e, w) =>
        let st' := record (Settled 5 file destPath (Some e)) (setWorld w st) in
        if isFatalError e then (Rejected e, st')
        else (Fulfilled {| resultType := FileUploadResultType.FAILURE;
                           error := Some e; file := file |}, st')
    end.

(** The [(file, destPath)] of the tasks made from the files of a batch. *)
Definition entriesOf (files : list string) : list (string * string) :=
  map (fun f => (f, destPathOf f)) files.

(** The tasks of a batch enter the pool. *)
Definition submitAll (batch : nat) (entries : list (string * string))
    (st : State) : State :=
  {| world := world st; failures := failures st;
     trace := trace st ++ map (submittedEvent batch) entries |}.

(** [for (let i = 0; i < filesByType.length; i++)
       await queue.addAll(filesByType[i].map(uploadFile))] *)
Fixpoint uploadBatches (i : nat) (filesByType : list (list string))
    (st : State) : (exn + unit) * State :=
  match filesByType with
  | [] => (inr (), st)
  | filesToUpload :: rest =>
      let st1 := submitAll i (entriesOf filesToUpload) st in
      match addAll (map (uploadFile i) filesToUpload) st1 with
      | (inl e, st') => (inl e, st')
      | (inr _, st') => uploadBatches (S i) rest st'
      end
  end.

(** The files that pass the two filters. *)
Definition allowedFiles (files : list string) : list string :=
  List.filter createIgnoreFilter (List.filter isAllowedExtension files).

(** What [uploadFolder] does with the files that [walk] found, started in
    the world [w]: the array it resolves to or the error it is rejected
    with, and the state at that moment. *)
Definition uploadFiles (files : list string) (w : World)
    : (exn + list UploadResult) * State :=
  let st0 := {| world := w; failures := []; trace := [] |} in
  match getFilesByType (allowedFiles files) with
  | inl e => (inl e, st0)
  | inr filesByType =>
      match uploadBatches 0 filesByType st0 with
      | (inl e, st1) => (inl e, st1)
      | (inr _, st1) =>
          addAll (map retryFile (failures st1)) (submitAll 5 (failures st1) st1)
      end
  end.

(** [uploadFolder(accountId, src, dest, options)] *)
Definition uploadFolder (w : World) : (exn + list UploadResult) * State :=
  uploadFiles (walk src) w.

End Run.

(** *** hasUploadErrors *)

(** [results.some(result => result.resultType === FileUploadResultType.FAILURE)] *)
Definition hasUploadErrors (results : list UploadResult) : bool :=
  existsb (fun result => String.eqb (resultType result) FileUploadResultType.FAILURE)
          results.

(** *** Reading a trace *)

Definition batchOf (ev : Event) : nat :=
  match ev with
  | Submitted b _ _ => b
  | Settled b _ _ _ => b
  end.

Definition fileOf (ev : Event) : string :=
  match ev with
  | Submitted _ f _ => f
  | Settled _ f _ _ => f
  end.

(** A settled promise is resolved unless the task rethrew a fatal error. *)
Definition resolved (answer : option exn) : bool :=
  match answer with
  | None => true
  | Some e => negb (isFatalError e)
  end.

(** The uploads among [atts] that were rejected with a transient error. *)
Definition transient (atts : list (string * string * option exn))
    : list (string * string) :=
  omap (fun a => match a.2 with
                 | Some e => if isFatalError e then None else Some a.1
                 | None => None
                 end) atts.

(** The tasks of batch [b] that entered the pool, as [(file, destPath)]. *)
Definition submittedIn (b : nat) (tr : list Event) : list (string * string) :=
  omap (fun ev => match ev with
                  | Submitted b' f d => if decide (b' = b) then Some (f, d) else None
                  | Settled _ _ _ _ => None
                  end) tr.

(** The tasks of batch [b] whose promise was resolved. *)
Definition resolvedIn (b : nat) (tr : list Event) : list (string * string) :=
  omap (fun ev => match ev with
                  | Settled b' f d a =>
                      if decide (b' = b) then
                        if resolved a then Some (f, d) else None
                      else None
                  | Submitted _ _ _ => None
                  end) tr.

(** The uploads of the main pass that were rejected with a transient error. *)
Definition failedFirst (tr : list Event) : list (string * string) :=
  omap (fun ev => match ev with
                  | Settled b f d (Some e) =>
                      if decide (b < 5) then
                        if isFatalError e then None else Some (f, d)
                      else None
                  | Settled _ _ _ None => None
                  | Submitted _ _ _ => None
                  end) tr.

(** The object a retry task returns for the answer of its upload. *)
Definition outcome (f : string) (answer : option exn) : UploadResult :=
  match answer with
  | None => {| resultType := FileUploadResultType.SUCCESS; error := None; file := f |}
  | Some e => {| resultType := FileUploadResultType.FAILURE; error := Some e; file := f |}
  end.

(** The outcomes of the retries that were resolved. *)
Definition retryOutcomes (tr : list Event) : list UploadResult :=
  omap (fun ev => match ev with
                  | Settled b f d a =>
                      if decide (b = 5) then
                        if resolved a then Some (outcome f a) else None
                      else None
                  | Submitted _ _ _ => None
                  end) tr.

(** The tasks of the main pass that entered the pool. *)
Definition mainTasks (tr : list Event) : list (string * string) :=
  omap (fun ev => match ev with
                  | Submitted b f d => if decide (b < 5) then Some (f, d) else None
                  | Settled _ _ _ _ => None
                  end) tr.

(** The uploads of the main pass that settled, and those of the retry pass. *)
Definition mainAttempts (tr : list Event) : list (string * string * option exn) :=
  omap (fun ev => match ev with
                  | Settled b f d a => if decide (b < 5) then Some (f, d, a) else None
                  | Submitted _ _ _ => None
                  end) tr.

Definition retries (tr : list Event) : list (string * string * option exn) :=
  omap (fun ev => match ev with
                  | Settled b f d a => if decide (b = 5) then Some (f, d, a) else None
                  | Submitted _ _ _ => None
                  end) tr.

(** The event is not the rejection of a task. *)
Definition quiet (ev : Event) : Prop :=
  match ev with
  | Settled _ _ _ a => resolved a = true
  | Submitted _ _ _ => True
  end.

(** The destination of the event is the one computed from [src] and [dest]. *)
Definition rightDest (src dest : string) (ev : Event) : Prop :=
  match ev with
  | Submitted _ f d => d = destPathOf src dest f
  | Settled _ f d _ => d = destPathOf src dest f
  end.

(** The outcomes in [results] for the file [f]. *)
Definition resultsFor (f : string) (results : list UploadResult) : list UploadResult :=
  List.filter (fun r => String.eqb (file r) f) results.

(** No task of a batch enters the pool before every task of every earlier
    batch has entered it and been resolved. *)
Definition barrier (tr : list Event) : Prop :=
  ∀ pre b' f d post b,
    tr = pre ++ Submitted b' f d :: post → b < b' →
    submittedIn b tr ≡ₚ resolvedIn b pre.

(** The state of a run before batch [i] of [filesByType] enters the pool:
    the earlier batches have drained and nothing was rejected. *)
Record Steady (src dest : string) (filesByType : list (list string))
    (i : nat) (st : State) : Prop := {
  steady_batches : ∀ ev, ev ∈ trace st → batchOf ev < i;
  steady_barrier : barrier (trace st);
  steady_balanced :
    ∀ b, b < i → submittedIn b (trace st) ≡ₚ resolvedIn b (trace st);
  steady_dest : Forall (rightDest src dest) (trace st);
  steady_quiet : Forall quiet (trace st);
  steady_failures : failures st = failedFirst (trace st);
  steady_tasks :
    mainTasks (trace st) = concat (map (entriesOf src dest) (take i filesByType));
  steady_submitted :
    ∀ b, submittedIn b (trace st) =
         if decide (b < i) then entriesOf src dest (filesByType !!! b) else [];
  steady_attempts : (mainAttempts (trace st)).*1 ≡ₚ mainTasks (trace st);
  steady_files : Forall (fun ev => fileOf ev ∈ concat filesByType) (trace st);
}.

(** The state of a run that resolved to [results]. *)
Record Finished (src dest : string) (filesByType : list (list string))
    (results : list UploadResult) (st : State) : Prop := {
  finished_batches : ∀ ev, ev ∈ trace st → batchOf ev ≤ 5;
  finished_barrier : barrier (trace st);
  finished_balanced :
    ∀ b, b ≤ 5 → submittedIn b (trace st) ≡ₚ resolvedIn b (trace st);
  finished_dest : Forall (rightDest src dest) (trace st);
  finished_quiet : Forall quiet (trace st);
  finished_tasks :
    mainTasks (trace st) = concat (map (entriesOf src dest) filesByType);
  finished_submitted :
    ∀ b, b < 5 → submittedIn b (trace st) = entriesOf src dest (filesByType !!! b);
  finished_retried : submittedIn 5 (trace st) = failedFirst (trace st);
  finished_attempts : (mainAttempts (trace st)).*1 ≡ₚ mainTasks (trace st);
  finished_retries : (retries (trace st)).*1 ≡ₚ failedFirst (trace st);
  finished_results : results ≡ₚ retryOutcomes (trace st);
  finished_files : map file results = (failedFirst (trace st)).*1;
  finished_among : Forall (fun ev => fileOf ev ∈ concat filesByType) (trace st);
}.

(** The state of a run that the fatal error [e] stopped. *)
Record Halted (src dest : string) (filesByType : list (list string))
    (e : exn) (st : State) : Prop := {
  halted_batches : ∀ ev, ev ∈ trace st → batchOf ev ≤ 5;
  halted_barrier : barrier (trace st);
  halted_dest : Forall (rightDest src dest) (trace st);
  halted_last :
    ∃ tr b f d, trace st = tr ++ [Settled b f d (Some e)] ∧
                isFatalError e = true ∧ Forall quiet tr;
  halted_tasks :
    ∃ k, k ≤ length filesByType ∧
         mainTasks (trace st) = concat (map (entriesOf src dest) (take k filesByType)) ∧
         ∀ b, b < 5 → submittedIn b (trace st) =
           if decide (b < k) then entriesOf src dest (filesByType !!! b) else [];
  halted_retried : submittedIn 5 (trace st) ⊆+ mainTasks (trace st);
  halted_retry_failed :
    ∀ entry, entry ∈ submittedIn 5 (trace st) → entry ∈ failedFirst (trace st);
  halted_among : Forall (fun ev => fileOf ev ∈ concat filesByType) (trace st);
}.

(** Every allowed file has exactly one task in the main pass. *)
Definition oneTaskEach (files : list string) (st : State) : Prop :=
  ∀ f, f ∈ allowedFiles files →
       length (List.filter (fun task => String.eqb task.1 f) (mainTasks (trace st))) = 1.

(** No task and no upload is for a path among [files] that the allow-list or
    the ignore rules exclude. *)
Definition noTaskForExcluded (files : list string) (st : State) : Prop :=
  ∀ f, f ∈ files →
       isAllowedExtension f = false ∨ createIgnoreFilter f = false →
       ∀ ev, ev ∈ trace st → fileOf ev ≠ f.

End UploadFolder.

Arguments Fulfilled {host V} value.
Arguments Rejected {host V} reason.
Abbreviation Task V := (State → Settlement V * State) (only parsing).

(** * A host to run the pipeline on *)

Module Demo.

(** Paths with [/] between the segments. *)
Fixpoint splitAt (sep : ascii) (s : string) (segment : string) : list string :=
  match s with
  | EmptyString => [segment]
  | String c rest =>
      if Ascii.eqb c sep then segment :: splitAt sep rest ""
      else splitAt sep rest (segment +:+ String c "")
  end.

Definition segments (path : string) : list string := splitAt "/"%char path "".

Definition extension (path : string) : string :=
  match reverse (splitAt "."%char (List.last (segments path) "") "") with
  | ext :: _ :: _ => ext
  | _ => ""
  end.

Fixpoint joinWith (sep : string) (parts : list string) : string :=
  match parts with
  | [] => ""
  | [part] => part
  | part :: rest => part +:+ sep +:+ joinWith sep rest
  end.

Definition parent (path : string) : string :=
  joinWith "/" (removelast (segments path)).

Definition entry (n : string) : Dirent := {| name := n; isDirectory := false |}.
Definition folder (n : string) : Dirent := {| name := n; isDirectory := true |}.

(** The trees that [walk] finds. *)
Definition tree (src : string) : list string :=
  if String.eqb src "site" then
    ["site/a.js"; "site/b.module/meta.json"; "site/b.module/fields.js";
     "site/b.module/fields.json"; "site/c.html"]
  else if String.eqb src "shop" then
    ["shop/logo.png"; "shop/cart.module/meta.json"; "shop/cart.module/fields.json";
     "shop/cart.module/data.json"; "shop/cart.module/module.css";
     "shop/legacy.module/fields.js"; "shop/legacy.module/fields.json";
     "shop/main.css"; "shop/index.html"; "shop/config.json";
     "shop/node_modules/x.js"; "shop/clip.mov"]
  else if String.eqb src "vault" then
    ["vault/a.css"; "vault/secret.css"; "vault/b.html"]
  else if String.eqb src "draft" then
    ["draft/x.module/fields.js"; "draft/y.html"]
  else [].

(** The directories on disk. *)
Definition listing (dir : string) : list Dirent :=
  if String.eqb dir "site" then [entry "a.js"; folder "b.module"; entry "c.html"]
  else if String.eqb dir "site/b.module" then
    [entry "meta.json"; entry "fields.js"; entry "fields.json"]
  else if String.eqb dir "shop/cart.module" then
    [entry "meta.json"; entry "fields.json"; entry "data.json"; entry "module.css"]
  else if String.eqb dir "shop/legacy.module" then
    [entry "fields.js"; entry "fields.json"]
  else [].

(** A host with POSIX paths. The ignore rules exclude [node_modules] and the
    [fields.js] of [shop/legacy.module]. The store rejects [vault/secret.css]
    with a fatal error and [shop/index.html] with a transient one every time,
    and [site/a.js] and [shop/main.css] with a transient one the first time.
    The world is the list of the uploads so far, and the promises in flight
    do not settle in the order they were started. *)
Definition host : Host := {|
  exn := string;
  World := list string;
  Options := unit;
  QueryValues := unit;
  walk := tree;
  isAllowedExtension := fun f =>
    existsb (String.eqb (extension f)) ["js"; "css"; "html"; "json"; "png"];
  splitLocalPath := segments;
  getExt := extension;
  createIgnoreFilter := fun f =>
    negb (existsb (String.eqb "node_modules") (segments f)
          || String.eqb f "shop/legacy.module/fields.js");
  dirname := parent;
  join := fun a b => a +:+ b;
  readdirSync := listing;
  convertFieldsJs := fun f =>
    if String.eqb f "draft/x.module/fields.js" then inl "SyntaxError"
    else inr (parent f +:+ "/fields.json");
  getFileMapperQueryValues := fun _ => ();
  upload := fun _ f _ _ seen =>
    if String.eqb f "vault/secret.css" then (Some "403", f :: seen)
    else if String.eqb f "shop/index.html" then (Some "503", f :: seen)
    else if (String.eqb f "site/a.js" || String.eqb f "shop/main.css")
            && negb (existsb (String.eqb f) seen)
    then (Some "ECONNRESET", f :: seen)
    else (None, f :: seen);
  isFatalError := fun e => String.eqb e "403";
  settles := fun seen n => length seen;
|}.

(** [uploadFolder(1, src, dest, {})] on this host, nothing uploaded yet. *)
Definition run (src dest : string) : (string + list UploadResult) * State :=
  uploadFolder (host := host) 1%Z src dest () [].

(** The same host with one more ignore rule, for the [fields.json] of
    [site/b.module]: the [fields.js] next to it is allowed, and its conversion
    writes its artifact over that [fields.json]. *)
Definition hsignore : Host := {|
  exn := string;
  World := list string;
  Options := unit;
  QueryValues := unit;
  walk := tree;
  isAllowedExtension := @isAllowedExtension host;
  splitLocalPath := segments;
  getExt := extension;
  createIgnoreFilter := fun f =>
    @createIgnoreFilter host f && negb (String.eqb f "site/b.module/fields.json");
  dirname := parent;
  join := fun a b => a +:+ b;
  readdirSync := listing;
  convertFieldsJs := @convertFieldsJs host;
  getFileMapperQueryValues := fun _ => ();
  upload := @upload host;
  isFatalError := @isFatalError host;
  settles := @settles host;
|}.

End Demo.

(** * More of the code *)

(** ** The uploads that the host sees *)

Section Uploads.
Context `{host : Host}.
Variables (accountId : Z) (options : Options).

(** From the world [w] the host is asked for the uploads of the [Settled]
    events of [tr], one after the other, answers each as the event says, and
    is left in the world [w']. *)
Fixpoint played (w : World) (tr : list Event) (w' : World) : Prop :=
  match tr with
  | [] => w' = w
  | Submitted _ _ _ :: tr => played w tr w'
  | Settled _ f d a :: tr =>
      let answer := upload accountId f d (apiOptions options) w in
      answer.1 = a ∧ played answer.2 tr w'
  end.

(** The task [t] makes one upload, of the entry, and records it in batch
    [b], whether it is fulfilled or rejected. *)
Definition uploading {V} (b : nat) (entry : string * string) (t : Task V) : Prop :=
  ∀ s r s', t s = (r, s') →
    ∃ a, upload accountId entry.1 entry.2 (apiOptions options) (world s)
         = (a, world s') ∧
         trace s' = trace s ++ [Settled b entry.1 entry.2 a].

(** The state of a run between two batches: the events so far are of the
    batches before [i], in their order, no task was uploaded twice, and the
    host saw the uploads. *)
Definition between (w0 : World) (i : nat) (st : State) : Prop :=
  (∀ ev, ev ∈ trace st → batchOf ev < i) ∧
  StronglySorted le (batchOf <$> trace st) ∧
  (mainAttempts (trace st)).*1 ⊆+ mainTasks (trace st) ∧
  played w0 (trace st) (world st).

(** The events of a run are in the order of the batches, no task is
    uploaded twice in a pass, and the host, started in [w], saw the uploads
    of the trace. *)
Record Orderly (w : World) (st : State) : Prop := {
  orderly_sorted : StronglySorted le (batchOf <$> trace st);
  orderly_main : (mainAttempts (trace st)).*1 ⊆+ mainTasks (trace st);
  orderly_retry : (retries (trace st)).*1 ⊆+ submittedIn 5 (trace st);
  orderly_played : played w (trace st) (world st);
}.

(** The array of [getFilesByType] that the chain of tests of the callback
    chooses for [file], as its position in the array that is returned: 1 for
    the files of a module folder, else 2, 3 or 4 by the extension, else 0. *)
Definition arrayOf (file : string) : nat :=
  let extension := getExt file in
  if inModuleFolder file then 1
  else if String.eqb extension "js" || String.eqb extension "css" then 2
  else if String.eqb extension "html" then 3
  else if String.eqb extension "json" then 4
  else 0.

End Uploads.

(** ** The names that [create] gives, in [createModule] and [createTemplate] *)

Module Create.

(** [name.endsWith('.module') ? name : `${name}.module`] *)
Definition folderName (name : string) : string :=
  if endsWith name ".module" then name else name +:+ ".module".

(** [name.endsWith('.html') ? name : `${name}.html`] *)
Definition filename (name : string) : string :=
  if endsWith name ".html" then name else name +:+ ".html".

End Create.

(** * Proofs *)

(** ** Strings *)

Lemma substring_whole (s : string) : String.substring 0 (String.length s) s = s.
Proof. induction s as [|c s IH]; [done|]. simpl. by rewrite IH. Qed.

Lemma prefix_app (s rest : string) : String.prefix s (s +:+ rest) = true.
Proof.
  induction s as [|c s IH]; simpl; [by destruct rest|].
  destruct (Ascii.ascii_dec c c); [done|congruence].
Qed.

(** A converted path has no backslash. *)
Lemma convertToUnixPath_get (path : string) (i : nat) :
  String.get i (convertToUnixPath path) ≠ Some backslash.
Proof.
  revert i. induction path as [|c path IH]; intros i; [done|].
  destruct i as [|i]; simpl; [|apply IH].
  destruct (Ascii.eqb c backslash) eqn:Hc; intros [= Heq].
  by apply Ascii.eqb_neq in Hc.
Qed.

(** A path with no backslash is converted to itself. *)
Lemma convertToUnixPath_unix (path : string) :
  (∀ i, String.get i path ≠ Some backslash) → convertToUnixPath path = path.
Proof.
  induction path as [|c path IH]; intros Hposix; [done|]. simpl.
  rewrite IH by (intros i; apply (Hposix (S i))).
  destruct (Ascii.eqb c backslash) eqn:Hc; [|done].
  apply Ascii.eqb_eq in Hc. subst c. by destruct (Hposix 0).
Qed.

(** Replacing the leading [src] of a path under [src] leaves the rest. *)
Lemma replaceLeading_app (src rest : string) : replaceLeading src (src +:+ rest) = rest.
Proof.
  unfold replaceLeading. rewrite prefix_app.
  induction src as [|c src IH]; simpl.
  - rewrite Nat.sub_0_r. apply substring_whole.
  - apply IH.
Qed.

(** ** The pool *)

Section Pool.
Context `{host : Host}.

Lemma filled_slots {V} (slots : list (option V)) :
  (∀ i, i < length slots → ∃ v, slots !! i = Some (Some v)) →
  slots = Some <$> omap id slots.
Proof.
  induction slots as [|s slots IH]; intros Hall; [done|].
  destruct (Hall 0) as [v Hv]; [simpl; lia|].
  simpl in Hv. injection Hv as ->. simpl. f_equal.
  apply IH. intros i Hi. apply (Hall (S i)). simpl. lia.
Qed.

Lemma next_in_flight {A} (pending : list A) (x : nat) :
  pending ≠ [] →
  x `mod` (Nat.min concurrency (length pending)) < length pending.
Proof.
  intros Hne. destruct pending as [|a pending]; [done|].
  assert (0 < Nat.min concurrency (length (a :: pending))) as Hpos
    by (unfold concurrency; simpl; lia).
  pose proof (Nat.mod_upper_bound x _ (Nat.neq_sym _ _ (Nat.lt_neq _ _ Hpos))).
  lia.
Qed.

(** A rule for [drain]: [I done st] is kept by every task that is fulfilled,
    where [done] lists the positions settled so far with their values. *)
Lemma drain_rule {V} (tasks : list (Task V)) (I : list (nat * V) → State → Prop) :
  (∀ done st i t v st',
      I done st → tasks !! i = Some t → i ∉ done.*1 →
      t st = (Fulfilled v, st') → I (done ++ [(i, v)]) st') →
  ∀ fuel pending slots st done,
    length pending ≤ fuel →
    I done st →
    (pending.*1 ++ done.*1) ≡ₚ seq 0 (length tasks) →
    (∀ i t, (i, t) ∈ pending → tasks !! i = Some t) →
    length slots = length tasks →
    (∀ i v, slots !! i = Some (Some v) ↔ (i, v) ∈ done) →
    match drain fuel pending slots st with
    | (inr slots', st') =>
        ∃ done', I done' st' ∧ done'.*1 ≡ₚ seq 0 (length tasks) ∧
                 length slots' = length tasks ∧
                 (∀ i v, slots' !! i = Some (Some v) ↔ (i, v) ∈ done')
    | (inl e, st') =>
        ∃ done' st0 i t, I done' st0 ∧ tasks !! i = Some t ∧ (i ∉ done'.*1) ∧
                         t st0 = (Rejected e, st')
    end.
Proof.
  intros Hstep fuel.
  induction fuel as [|fuel IH]; intros pending slots st done Hfuel HI Hperm Hin Hlen Hslots.
  - destruct pending; [|simpl in Hfuel; lia]. simpl. eauto.
  - cbn [drain].
    set (next := settles _ _ `mod` _).
    pose proof (next_in_flight pending
                  (settles (world st) (Nat.min concurrency (length pending)))) as Hlt.
    fold next in Hlt. clearbody next.
    destruct (pending !! next) as [[i t]|] eqn:Hnext.
    + assert ((i ∉ done.*1) ∧ i < length tasks) as [Hfresh Hi].
      { assert (NoDup (pending.*1 ++ done.*1)) as Hnd
          by (rewrite Hperm; apply NoDup_seq).
        apply NoDup_app in Hnd as (_ & Hdisj & _).
        assert (i ∈ pending.*1) as Hip.
        { apply list_elem_of_fmap. exists (i, t). split; [done|].
          eapply list_elem_of_lookup_2; eauto. }
        split; [by apply Hdisj|].
        assert (i ∈ seq 0 (length tasks)) as Hs
          by (rewrite <- Hperm; apply elem_of_app; by left).
        apply elem_of_seq in Hs. lia. }
      assert (tasks !! i = Some t) as Ht
        by (apply Hin; eapply list_elem_of_lookup_2; eauto).
      destruct (t st) as [[v|e] st'] eqn:Hrun.
      * apply (IH _ _ _ (done ++ [(i, v)])).
        -- rewrite length_delete by eauto. lia.
        -- eapply Hstep; eauto.
        -- rewrite <- Hperm, fmap_app. simpl.
           rewrite (delete_Permutation (pending.*1) next i)
             by (rewrite list_lookup_fmap; exact (f_equal (fmap fst) Hnext)).
           rewrite <- list_fmap_delete.
           rewrite (Permutation_app_comm (done.*1)).
           simpl. by rewrite Permutation_middle.
        -- intros j u Hju. apply Hin.
           eapply list_elem_of_delete_inv; eauto.
        -- by rewrite length_insert.
        -- intros j u. rewrite elem_of_app, list_elem_of_singleton.
           destruct (decide (j = i)) as [->|Hne].
           ++ rewrite list_lookup_insert_eq by lia. split.
              ** intros [= ->]. by right.
              ** intros [Hd|[= ->]]; [|done]. exfalso. apply Hfresh.
                 apply list_elem_of_fmap. by exists (i, u).
           ++ rewrite list_lookup_insert_ne by done. rewrite Hslots.
              split; [by left|]. intros [Hd|[= ? ?]]; [done|congruence].
      * exists done, st, i, t. eauto.
    + assert (pending = []) as ->.
      { destruct (decide (pending = [])) as [|Hne]; [done|].
        apply lookup_ge_None in Hnext. specialize (Hlt Hne). lia. }
      eauto.
Qed.

Lemma positions_imap {A} (l : list A) (k : nat) :
  (imap (fun i x => (k + i, x)) l).*1 = seq k (length l).
Proof.
  revert k. induction l as [|x l IH]; intros k; [done|].
  simpl. rewrite Nat.add_0_r. f_equal.
  rewrite <- (IH (S k)). f_equal. apply imap_ext. intros i y _. simpl. f_equal. lia.
Qed.

Lemma positions_pair {A} (l : list A) : (imap pair l).*1 = seq 0 (length l).
Proof. apply (positions_imap l 0). Qed.

Lemma elem_of_imap_pair {A} (l : list A) (i : nat) (x : A) :
  (i, x) ∈ imap pair l ↔ l !! i = Some x.
Proof.
  rewrite elem_of_lookup_imap. split.
  - intros (j & y & [= -> ->] & Hy). done.
  - intros Hx. eauto.
Qed.

(** The rule for [await queue.addAll(tasks)]: when it resolves, every task
    has been fulfilled once, in some order, and the array holds the value
    of each task at the position of the task. *)
Lemma addAll_rule {V} (tasks : list (Task V)) (I : list (nat * V) → State → Prop)
    (st : State) :
  (∀ done st i t v st',
      I done st → tasks !! i = Some t → i ∉ done.*1 →
      t st = (Fulfilled v, st') → I (done ++ [(i, v)]) st') →
  I [] st →
  match addAll tasks st with
  | (inr vs, st') =>
      ∃ done, I done st' ∧ done ≡ₚ imap pair vs ∧ length vs = length tasks
  | (inl e, st') =>
      ∃ done st0 i t, I done st0 ∧ tasks !! i = Some t ∧ (i ∉ done.*1) ∧
                      t st0 = (Rejected e, st')
  end.
Proof.
  intros Hstep HI. unfold addAll.
  assert (match drain (length tasks) (imap pair tasks)
                  (replicate (length tasks) None) st with
          | (inr slots', st') =>
              ∃ done', I done' st' ∧ done'.*1 ≡ₚ seq 0 (length tasks) ∧
                       length slots' = length tasks ∧
                       (∀ i v, slots' !! i = Some (Some v) ↔ (i, v) ∈ done')
          | (inl e, st') =>
              ∃ done' st0 i t, I done' st0 ∧ tasks !! i = Some t ∧
                               (i ∉ done'.*1) ∧ t st0 = (Rejected e, st')
          end) as Hd.
  { apply (drain_rule tasks I Hstep _ _ _ _ []); [|done| | | |].
    - by rewrite length_imap.
    - rewrite fmap_nil, app_nil_r, positions_pair. done.
    - intros i t. by rewrite elem_of_imap_pair.
    - by rewrite length_replicate.
    - intros i v. split.
      + intros [? _]%lookup_replicate. done.
      + intros ?%elem_of_nil. done. }
  destruct (drain _ _ _ _) as [[e|slots] st']; [done|].
  destruct Hd as (done & HId & Hpos & Hlen & Hslots).
  {
    assert (slots = Some <$> omap id slots) as Hfilled.
    { apply filled_slots. intros i Hi.
      assert (i ∈ done.*1) as Hid
        by (rewrite Hpos; apply elem_of_seq; lia).
      apply list_elem_of_fmap in Hid as ([j v] & -> & Hjv).
      exists v. by apply Hslots. }
    assert (length (omap id slots) = length tasks) as Hlen'.
    { rewrite <- Hlen. rewrite Hfilled at 2. by rewrite length_fmap. }
    exists done. split_and!; [done| |done].
    apply NoDup_Permutation.
    - eapply NoDup_fmap_1. rewrite Hpos. apply NoDup_seq.
    - eapply NoDup_fmap_1. rewrite positions_pair. apply NoDup_seq.
    - intros [i v]. rewrite elem_of_imap_pair, <- Hslots.
      rewrite Hfilled at 1. rewrite list_lookup_fmap.
      destruct (omap id slots !! i) as [u|]; simpl; [|done].
      split; intros [= ->]; done. }
Qed.

(** *** Lists *)

Lemma NoDup_fmap_eq {A B} (g : A → B) (l : list A) (x y : A) :
  NoDup (g <$> l) → x ∈ l → y ∈ l → g x = g y → x = y.
Proof.
  induction l as [|z l IH]; [by intros _ ?%elem_of_nil|].
  rewrite fmap_cons, NoDup_cons. intros [Hz Hnd].
  intros [->|Hx]%elem_of_cons [->|Hy]%elem_of_cons Heq; [done| | |by apply IH].
  - exfalso. apply Hz. rewrite Heq. by apply list_elem_of_fmap_2.
  - exfalso. apply Hz. rewrite <- Heq. by apply list_elem_of_fmap_2.
Qed.

Lemma NoDup_of_submseteq {A} (l k : list A) : l ⊆+ k → NoDup k → NoDup l.
Proof.
  intros [k' Hk]%submseteq_Permutation. rewrite Hk. by intros [? _]%NoDup_app.
Qed.

Lemma filter_none {A} (p : A → bool) (l : list A) :
  (∀ x, x ∈ l → p x = false) → List.filter p l = [].
Proof.
  induction l as [|z l IH]; intros Hp; [done|]. simpl.
  rewrite (Hp z) by left. apply IH. intros x Hx. apply Hp. by right.
Qed.

Lemma filter_one {A B} (g : A → B) (p : A → bool) (l : list A) (x : A) :
  NoDup (g <$> l) → x ∈ l → (∀ y, p y = true ↔ g y = g x) →
  List.filter p l = [x].
Proof.
  induction l as [|z l IH]; [by intros _ ?%elem_of_nil|].
  rewrite fmap_cons, NoDup_cons. intros [Hz Hnd] Hx Hp. simpl.
  apply elem_of_cons in Hx as [->|Hx].
  - rewrite (proj2 (Hp z)) by done. f_equal. apply filter_none.
    intros y Hy. destruct (p y) eqn:Hpy; [|done].
    exfalso. apply Hz. rewrite <- (proj1 (Hp y) Hpy). by apply list_elem_of_fmap_2.
  - destruct (p z) eqn:Hpz; [|by apply IH].
    exfalso. apply Hz. rewrite (proj1 (Hp z) Hpz). by apply list_elem_of_fmap_2.
Qed.

End Pool.

(** ** The batches *)

Section Batches.
Context `{host : Host}.
Variables (accountId : Z) (src dest : string) (options : Options).

Local Abbreviation destPathOf := (destPathOf src dest).
Local Abbreviation uploadFile := (uploadFile accountId src dest options).
Local Abbreviation retryFile := (retryFile accountId options).
Local Abbreviation entriesOf := (entriesOf src dest).

Lemma omap_lookup_seq_app {A} (l0 l : list A) :
  omap (fun i => (l0 ++ l) !! i) (seq (length l0) (length l)) = l.
Proof.
  revert l0. induction l as [|x l IH]; intros l0; [done|].
  csimpl. rewrite list_lookup_middle by done. f_equal.
  specialize (IH (l0 ++ [x])).
  rewrite <- app_assoc, length_app, Nat.add_1_r in IH. done.
Qed.

Lemma omap_lookup_seq {A} (l : list A) :
  omap (fun i => l !! i) (seq 0 (length l)) = l.
Proof. apply (omap_lookup_seq_app [] l). Qed.

(** Attempts that were made at a permutation of the positions of [entries]
    are a permutation of [entries]. *)
Lemma settle_order {D} (entries : list (string * string)) (done : list (nat * D))
    (atts : list (string * string * option exn)) :
  Forall2 (fun dn a => entries !! dn.1 = Some a.1) done atts →
  done.*1 ≡ₚ seq 0 (length entries) →
  atts.*1 ≡ₚ entries.
Proof.
  intros HF Hperm.
  assert (atts.*1 = omap (fun i => entries !! i) done.*1) as ->.
  { clear Hperm. induction HF as [|dn a done atts Hda _ IH]; [done|].
    csimpl. rewrite Hda. csimpl. by f_equal. }
  rewrite Hperm. by rewrite omap_lookup_seq.
Qed.

Lemma settle_among {D} (entries : list (string * string)) (done : list (nat * D))
    (atts : list (string * string * option exn)) :
  Forall2 (fun dn a => entries !! dn.1 = Some a.1) done atts →
  Forall (fun a => a.1 ∈ entries) atts.
Proof.
  induction 1 as [|dn a done atts Hda _ IH]; constructor; [|done].
  eapply list_elem_of_lookup_2; eauto.
Qed.

Lemma lookup_entriesOf fs i :
  entriesOf fs !! i = (fun f => (f, destPathOf f)) <$> fs !! i.
Proof. apply list_lookup_fmap. Qed.

Lemma length_entriesOf fs : length (entriesOf fs) = length fs.
Proof. apply length_map. Qed.

(** *** One task *)

Lemma uploadFile_fulfilled b f st v st' :
  uploadFile b f st = (Fulfilled v, st') →
  ∃ a, resolved a = true ∧
       trace st' = trace st ++ [settledEvent b (f, destPathOf f, a)] ∧
       failures st' = failures st ++ transient [(f, destPathOf f, a)].
Proof.
  unfold uploadFile.
  destruct (upload _ _ _ _ _) as [[e|] w]; simpl.
  - destruct (isFatalError e) eqn:Hfatal; [done|]. intros [= _ <-].
    exists (Some e). unfold transient. simpl. by rewrite Hfatal.
  - intros [= _ <-]. exists None. simpl. by rewrite app_nil_r.
Qed.

Lemma uploadFile_rejected b f st e st' :
  uploadFile b f st = (Rejected e, st') →
  isFatalError e = true ∧
  trace st' = trace st ++ [settledEvent b (f, destPathOf f, Some e)] ∧
  failures st' = failures st.
Proof.
  unfold uploadFile.
  destruct (upload _ _ _ _ _) as [[e'|] w]; simpl; [|done].
  destruct (isFatalError e') eqn:Hfatal; [|done]. by intros [= <- <-].
Qed.

Lemma retryFile_fulfilled f d st v st' :
  retryFile (f, d) st = (Fulfilled v, st') →
  ∃ a, resolved a = true ∧ v = outcome f a ∧
       trace st' = trace st ++ [settledEvent 5 (f, d, a)] ∧
       failures st' = failures st.
Proof.
  unfold retryFile.
  destruct (upload _ _ _ _ _) as [[e|] w]; simpl.
  - destruct (isFatalError e) eqn:Hfatal; [done|]. intros [= <- <-].
    exists (Some e). simpl. by rewrite Hfatal.
  - intros [= <- <-]. by exists None.
Qed.

Lemma retryFile_rejected f d st e st' :
  retryFile (f, d) st = (Rejected e, st') →
  isFatalError e = true ∧
  trace st' = trace st ++ [settledEvent 5 (f, d, Some e)] ∧
  failures st' = failures st.
Proof.
  unfold retryFile.
  destruct (upload _ _ _ _ _) as [[e'|] w]; simpl; [|done].
  destruct (isFatalError e') eqn:Hfatal; [|done]. by intros [= <- <-].
Qed.

(** *** One batch of the main pass *)

(** When the batch resolves, every file of it was uploaded once, in some
    order, and the transient rejections were pushed to [failures] in that
    order; when it is rejected, the last upload was rejected with a fatal
    error. *)
Lemma uploadBatch_spec b fs st :
  match addAll (map (uploadFile b) fs) st with
  | (inr _, st') =>
      ∃ atts, trace st' = trace st ++ map (settledEvent b) atts ∧
              atts.*1 ≡ₚ entriesOf fs ∧
              Forall (fun a => resolved a.2 = true) atts ∧
              failures st' = failures st ++ transient atts
  | (inl e, st') =>
      ∃ atts f,
        trace st' = trace st ++ map (settledEvent b) atts
                      ++ [settledEvent b (f, destPathOf f, Some e)] ∧
        isFatalError e = true ∧ f ∈ fs ∧
        Forall (fun a => a.1 ∈ entriesOf fs) atts ∧
        Forall (fun a => resolved a.2 = true) atts ∧
        failures st' = failures st ++ transient atts
  end.
Proof.
  set (I := fun (done : list (nat * unit)) (s : State) =>
    ∃ atts, trace s = trace st ++ map (settledEvent b) atts ∧
            Forall2 (fun dn a => entriesOf fs !! dn.1 = Some a.1) done atts ∧
            Forall (fun a => resolved a.2 = true) atts ∧
            failures s = failures st ++ transient atts).
  assert (I [] st) as Hinit.
  { exists []. by rewrite !app_nil_r. }
  assert (∀ done s i t v s',
             I done s → map (uploadFile b) fs !! i = Some t → i ∉ done.*1 →
             t s = (Fulfilled v, s') → I (done ++ [(i, v)]) s') as Hstep.
  { intros done s i t v s' (atts & Htr & HF2 & Hres & Hfail) Ht _ Hrun.
    rewrite list_lookup_fmap in Ht.
    destruct (fs !! i) as [f|] eqn:Hf; [|done]. injection Ht as <-.
    apply uploadFile_fulfilled in Hrun as (a & Ha & Htr' & Hfail').
    exists (atts ++ [(f, destPathOf f, a)]).
    rewrite Htr', Htr, Hfail', Hfail, map_app, <- !app_assoc.
    split_and!; try done.
    - apply Forall2_app; [done|]. constructor; [|done].
      simpl. by rewrite lookup_entriesOf, Hf.
    - apply Forall_app. split; [done|]. by constructor.
    - unfold transient. by rewrite omap_app. }
  pose proof (addAll_rule (map (uploadFile b) fs) I st Hstep Hinit) as Hrule.
  destruct (addAll _ _) as [[e|vs] st'].
  - destruct Hrule as (done & st0 & i & t & (atts & Htr & HF2 & Hres & Hfail) & Ht & _ & Hrun).
    rewrite list_lookup_fmap in Ht.
    destruct (fs !! i) as [f|] eqn:Hf; [|done]. injection Ht as <-.
    apply uploadFile_rejected in Hrun as (Hfatal & Htr' & Hfail').
    exists atts, f. rewrite Htr', Htr, Hfail', Hfail, <- app_assoc.
    split_and!; try done.
    + eapply list_elem_of_lookup_2; eauto.
    + eapply settle_among; eauto.
  - destruct Hrule as (done & (atts & Htr & HF2 & Hres & Hfail) & Hperm & Hlen).
    exists atts. split_and!; try done.
    eapply settle_order; [done|].
    rewrite Hperm, positions_pair, Hlen, length_map, length_entriesOf. done.
Qed.

Lemma values_imap {A} (l : list A) (k : nat) :
  (imap (fun i x => (k + i, x)) l).*2 = l.
Proof.
  revert k. induction l as [|x l IH]; intros k; [done|].
  simpl. f_equal. rewrite <- (IH (S k)) at 2. f_equal.
  apply imap_ext. intros i y _. simpl. f_equal. lia.
Qed.

Lemma file_outcome f a : file (outcome f a) = f.
Proof. by destruct a. Qed.

(** *** The batch of the retries *)

(** When the batch resolves, every entry of [failures] was retried once, in
    some order, and the array holds the outcome of each entry at the
    position of the entry. *)
Lemma retryBatch_spec (entries : list (string * string)) st :
  match addAll (map retryFile entries) st with
  | (inr results, st') =>
      ∃ atts, trace st' = trace st ++ map (settledEvent 5) atts ∧
              atts.*1 ≡ₚ entries ∧
              Forall (fun a => resolved a.2 = true) atts ∧
              results ≡ₚ map (fun a => outcome a.1.1 a.2) atts ∧
              map file results = entries.*1
  | (inl e, st') =>
      ∃ atts f d,
        trace st' = trace st ++ map (settledEvent 5) atts
                      ++ [settledEvent 5 (f, d, Some e)] ∧
        isFatalError e = true ∧ (f, d) ∈ entries ∧
        Forall (fun a => a.1 ∈ entries) atts ∧
        Forall (fun a => resolved a.2 = true) atts
  end.
Proof.
  set (R := fun (dn : nat * UploadResult) (a : string * string * option exn) =>
              entries !! dn.1 = Some a.1 ∧ dn.2 = outcome a.1.1 a.2).
  set (I := fun (done : list (nat * UploadResult)) (s : State) =>
    ∃ atts, trace s = trace st ++ map (settledEvent 5) atts ∧
            Forall2 R done atts ∧
            Forall (fun a => resolved a.2 = true) atts).
  assert (∀ done atts, Forall2 R done atts →
            Forall2 (fun dn a => entries !! dn.1 = Some a.1) done atts) as Hweak.
  { intros done atts HR. eapply Forall2_impl; [done|]. by intros ?? [? _]. }
  assert (I [] st) as Hinit.
  { exists []. by rewrite !app_nil_r. }
  assert (∀ done s i t v s',
             I done s → map retryFile entries !! i = Some t → i ∉ done.*1 →
             t s = (Fulfilled v, s') → I (done ++ [(i, v)]) s') as Hstep.
  { intros done s i t v s' (atts & Htr & HF2 & Hres) Ht _ Hrun.
    rewrite list_lookup_fmap in Ht.
    destruct (entries !! i) as [[f d]|] eqn:Hf; [|done]. injection Ht as <-.
    apply retryFile_fulfilled in Hrun as (a & Ha & -> & Htr' & _).
    exists (atts ++ [(f, d, a)]).
    rewrite Htr', Htr, map_app, <- !app_assoc.
    split_and!; try done.
    - apply Forall2_app; [done|]. constructor; [|done]. by split.
    - apply Forall_app. split; [done|]. by constructor. }
  pose proof (addAll_rule (map retryFile entries) I st Hstep Hinit) as Hrule.
  destruct (addAll _ _) as [[e|results] st'].
  - destruct Hrule as (done & st0 & i & t & (atts & Htr & HF2 & Hres) & Ht & _ & Hrun).
    rewrite list_lookup_fmap in Ht.
    destruct (entries !! i) as [[f d]|] eqn:Hf; [|done]. injection Ht as <-.
    apply retryFile_rejected in Hrun as (Hfatal & Htr' & _).
    exists atts, f, d. rewrite Htr', Htr, <- app_assoc.
    split_and!; try done.
    + eapply list_elem_of_lookup_2; eauto.
    + eapply settle_among; eauto.
  - destruct Hrule as (done & (atts & Htr & HF2 & Hres) & Hperm & Hlen).
    rewrite length_map in Hlen.
    exists atts. split_and!; try done.
    + eapply settle_order; [by apply Hweak|].
      by rewrite Hperm, positions_pair, Hlen.
    + rewrite <- (values_imap results 0) at 1.
      change (imap (fun i x => (0 + i, x)) results) with (imap pair results).
      rewrite <- Hperm. clear -HF2.
      induction HF2 as [|dn a done atts [_ Hda] _ IH]; [done|].
      simpl. rewrite Hda. by f_equiv.
    + apply list_eq. intros i. rewrite !list_lookup_fmap.
      destruct (results !! i) as [v|] eqn:Hv; simpl.
      * assert ((i, v) ∈ done) as Hin
          by (rewrite Hperm; by apply elem_of_imap_pair).
        apply list_elem_of_lookup_1 in Hin as [k Hk].
        destruct (Forall2_lookup_l _ _ _ _ _ HF2 Hk) as (a & _ & Hia & Hva).
        simpl in Hia, Hva. rewrite Hia, Hva. simpl. by rewrite file_outcome.
      * apply lookup_ge_None in Hv.
        rewrite (proj2 (lookup_ge_None entries i)) by lia. done.
Qed.

End Batches.

(** ** Reading the trace of a batch *)

Section Readings.
Context `{host : Host}.

Lemma omap_fmap {A B C} (g : A → B) (f : B → option C) (l : list A) :
  omap f (g <$> l) = omap (fun x => f (g x)) l.
Proof. induction l as [|x l IH]; [done|]. csimpl. by rewrite IH. Qed.

Lemma omap_none {A B} (f : A → option B) (l : list A) :
  (∀ x, x ∈ l → f x = None) → omap f l = [].
Proof.
  induction l as [|x l IH]; intros Hf; [done|]. csimpl.
  rewrite (Hf x) by left. apply IH. intros y Hy. apply Hf. by right.
Qed.

Lemma omap_some {A B} (f : A → option B) (g : A → B) (l : list A) :
  (∀ x, x ∈ l → f x = Some (g x)) → omap f l = g <$> l.
Proof.
  induction l as [|x l IH]; intros Hf; [done|]. csimpl.
  rewrite (Hf x) by left. csimpl. f_equal. apply IH. intros y Hy. apply Hf. by right.
Qed.

Lemma submittedIn_app b l1 l2 :
  submittedIn b (l1 ++ l2) = submittedIn b l1 ++ submittedIn b l2.
Proof. apply omap_app. Qed.

Lemma resolvedIn_app b l1 l2 :
  resolvedIn b (l1 ++ l2) = resolvedIn b l1 ++ resolvedIn b l2.
Proof. apply omap_app. Qed.

Lemma submittedIn_other b l :
  (∀ ev, ev ∈ l → batchOf ev ≠ b) → submittedIn b l = [].
Proof.
  intros Hb. apply omap_none. intros [b' f d|b' f d a] Hev; [|done].
  specialize (Hb _ Hev). simpl in Hb. by rewrite decide_False.
Qed.

Lemma resolvedIn_other b l :
  (∀ ev, ev ∈ l → batchOf ev ≠ b) → resolvedIn b l = [].
Proof.
  intros Hb. apply omap_none. intros [b' f d|b' f d a] Hev; [done|].
  specialize (Hb _ Hev). simpl in Hb. by rewrite decide_False.
Qed.

Lemma submittedIn_submitted b entries :
  submittedIn b (map (submittedEvent b) entries) = entries.
Proof.
  unfold submittedIn. rewrite omap_fmap.
  rewrite (omap_some _ id); [by rewrite list_fmap_id|].
  intros [f d] _. simpl. by rewrite decide_True.
Qed.

Lemma submittedIn_settled b b' atts :
  submittedIn b (map (settledEvent b') atts) = [].
Proof. unfold submittedIn. rewrite omap_fmap. by apply omap_none. Qed.

Lemma resolvedIn_submitted b b' entries :
  resolvedIn b (map (submittedEvent b') entries) = [].
Proof. unfold resolvedIn. rewrite omap_fmap. by apply omap_none. Qed.

Lemma resolvedIn_settled b atts :
  Forall (fun a => resolved a.2 = true) atts →
  resolvedIn b (map (settledEvent b) atts) = atts.*1.
Proof.
  intros Hres. unfold resolvedIn. rewrite omap_fmap.
  apply omap_some. intros [[f d] a] Hin. simpl.
  rewrite decide_True by done.
  rewrite Forall_forall in Hres. specialize (Hres _ Hin). simpl in Hres.
  by rewrite Hres.
Qed.

Lemma batchOf_segment b entries atts ev :
  ev ∈ map (submittedEvent b) entries ++ map (settledEvent b) atts →
  batchOf ev = b.
Proof.
  rewrite elem_of_app, !list_elem_of_fmap.
  intros [(x & -> & _)|(x & -> & _)]; done.
Qed.

(** The barrier is kept when the next batch enters the pool and some of its
    tasks settle. *)
Lemma barrier_extend i tr entries atts :
  (∀ ev, ev ∈ tr → batchOf ev < i) →
  barrier tr →
  (∀ b, b < i → submittedIn b tr ≡ₚ resolvedIn b tr) →
  barrier (tr ++ map (submittedEvent i) entries ++ map (settledEvent i) atts).
Proof.
  intros Hold Hbar Hbal pre b' f d post b Heq Hlt.
  set (seg := map (submittedEvent i) entries ++ map (settledEvent i) atts) in *.
  assert (∀ k, (∀ ev, ev ∈ k → ev ∈ seg) → b ≠ i →
               submittedIn b k = [] ∧ resolvedIn b k = []) as Hseg.
  { intros k Hk Hne. split; [apply submittedIn_other|apply resolvedIn_other];
      intros ev Hev; rewrite (batchOf_segment i entries atts ev); auto. }
  apply app_eq_inv in Heq as [(k & Htr & Hk)|(k & Hpre & Hk)].
  - destruct k as [|ev k].
    + simpl in Hk. rewrite app_nil_r in Htr. subst pre.
      assert (b' = i) as ->.
      { apply (batchOf_segment i entries atts (Submitted b' f d)).
        fold seg. rewrite <- Hk. by left. }
      destruct (Hseg seg) as [Hs _]; [done|lia|].
      rewrite submittedIn_app, Hs, app_nil_r. apply Hbal. lia.
    + injection Hk as <- ->.
      assert (b' < i) as Hb'.
      { apply (Hold (Submitted b' f d)). subst tr.
        apply elem_of_app. right. by left. }
      destruct (Hseg seg) as [Hs _]; [done|lia|].
      rewrite submittedIn_app, Hs, app_nil_r. by eapply Hbar.
  - assert (b' = i) as ->.
    { apply (batchOf_segment i entries atts (Submitted b' f d)).
      fold seg. rewrite Hk. apply elem_of_app. right. by left. }
    destruct (Hseg seg) as [Hs _]; [done|lia|].
    destruct (Hseg k) as [_ Hr]; [|lia|].
    { intros ev Hev. rewrite Hk. apply elem_of_app. by left. }
    subst pre. rewrite submittedIn_app, Hs, app_nil_r, resolvedIn_app, Hr, app_nil_r.
    apply Hbal. lia.
Qed.

Lemma failedFirst_app l1 l2 :
  failedFirst (l1 ++ l2) = failedFirst l1 ++ failedFirst l2.
Proof. apply omap_app. Qed.

Lemma failedFirst_submitted b entries :
  failedFirst (map (submittedEvent b) entries) = [].
Proof. unfold failedFirst. rewrite omap_fmap. by apply omap_none. Qed.

Lemma failedFirst_settled b atts :
  b < 5 → failedFirst (map (settledEvent b) atts) = transient atts.
Proof.
  intros Hb. unfold failedFirst, transient. rewrite omap_fmap.
  apply list_omap_ext, Forall2_same_length_lookup. split; [done|].
  intros i [[f d] a] y Hx Hy. rewrite Hx in Hy. injection Hy as <-.
  simpl. destruct a as [e|]; [|done]. by rewrite decide_True.
Qed.

Lemma failedFirst_retries atts :
  failedFirst (map (settledEvent 5) atts) = [].
Proof.
  unfold failedFirst. rewrite omap_fmap. apply omap_none.
  intros [[f d] [e|]] _; done.
Qed.

Lemma mainTasks_app l1 l2 : mainTasks (l1 ++ l2) = mainTasks l1 ++ mainTasks l2.
Proof. apply omap_app. Qed.

Lemma mainTasks_submitted b entries :
  mainTasks (map (submittedEvent b) entries) = if decide (b < 5) then entries else [].
Proof.
  unfold mainTasks. rewrite omap_fmap. case_decide.
  - rewrite (omap_some _ id); [by rewrite list_fmap_id|].
    intros [f d] _. simpl. by rewrite decide_True.
  - apply omap_none. intros [f d] _. simpl. by rewrite decide_False.
Qed.

Lemma mainTasks_settled b atts : mainTasks (map (settledEvent b) atts) = [].
Proof. unfold mainTasks. rewrite omap_fmap. by apply omap_none. Qed.

Lemma mainAttempts_app l1 l2 :
  mainAttempts (l1 ++ l2) = mainAttempts l1 ++ mainAttempts l2.
Proof. apply omap_app. Qed.

Lemma mainAttempts_submitted b entries :
  mainAttempts (map (submittedEvent b) entries) = [].
Proof. unfold mainAttempts. rewrite omap_fmap. by apply omap_none. Qed.

Lemma mainAttempts_settled b atts :
  mainAttempts (map (settledEvent b) atts) = if decide (b < 5) then atts else [].
Proof.
  unfold mainAttempts. rewrite omap_fmap. case_decide.
  - rewrite (omap_some _ id); [by rewrite list_fmap_id|].
    intros [[f d] a] _. simpl. by rewrite decide_True.
  - apply omap_none. intros [[f d] a] _. simpl. by rewrite decide_False.
Qed.

Lemma retries_app l1 l2 : retries (l1 ++ l2) = retries l1 ++ retries l2.
Proof. apply omap_app. Qed.

Lemma retries_submitted b entries : retries (map (submittedEvent b) entries) = [].
Proof. unfold retries. rewrite omap_fmap. by apply omap_none. Qed.

Lemma retries_settled atts : retries (map (settledEvent 5) atts) = atts.
Proof.
  unfold retries. rewrite omap_fmap.
  rewrite (omap_some _ id); [by rewrite list_fmap_id|]. by intros [[f d] a] _.
Qed.

Lemma retries_other l : (∀ ev, ev ∈ l → batchOf ev ≠ 5) → retries l = [].
Proof.
  intros Hb. apply omap_none. intros [b f d|b f d a] Hev; [done|].
  specialize (Hb _ Hev). simpl in Hb. by rewrite decide_False.
Qed.

Lemma retryOutcomes_retries tr :
  Forall quiet tr →
  retryOutcomes tr = map (fun a => outcome a.1.1 a.2) (retries tr).
Proof.
  induction 1 as [|ev tr Hq _ IH]; [done|].
  destruct ev as [b f d|b f d a]; csimpl; [done|].
  simpl in Hq. rewrite Hq. case_decide; csimpl; by rewrite IH.
Qed.

Lemma elem_of_submittedIn b f d tr :
  (f, d) ∈ submittedIn b tr ↔ Submitted b f d ∈ tr.
Proof.
  unfold submittedIn. rewrite list_elem_of_omap. split.
  - intros ([b' f' d'|] & Hin & Heq); [|done].
    case_decide; [|done]. by simplify_eq.
  - intros Hin. exists (Submitted b f d). split; [done|]. by rewrite decide_True.
Qed.

Lemma elem_of_mainTasks f d tr :
  (f, d) ∈ mainTasks tr ↔ ∃ b, b < 5 ∧ Submitted b f d ∈ tr.
Proof.
  unfold mainTasks. rewrite list_elem_of_omap. split.
  - intros ([b' f' d'|] & Hin & Heq); [|done].
    case_decide; [|done]. simplify_eq. eauto.
  - intros (b & Hb & Hin). exists (Submitted b f d).
    split; [done|]. by rewrite decide_True.
Qed.


Lemma elem_of_failedFirst f d tr :
  (f, d) ∈ failedFirst tr ↔
  ∃ b e, b < 5 ∧ isFatalError e = false ∧ Settled b f d (Some e) ∈ tr.
Proof.
  unfold failedFirst. rewrite list_elem_of_omap. split.
  - intros ([|b' f' d' [e|]] & Hin & Heq); try done.
    case_decide; [|done]. destruct (isFatalError e) eqn:He; [done|].
    simplify_eq. eauto.
  - intros (b & e & Hb & He & Hin). exists (Settled b f d (Some e)).
    split; [done|]. by rewrite decide_True, He.
Qed.

Lemma elem_of_mainAttempts f d a tr :
  (f, d, a) ∈ mainAttempts tr ↔ ∃ b, b < 5 ∧ Settled b f d a ∈ tr.
Proof.
  unfold mainAttempts. rewrite list_elem_of_omap. split.
  - intros ([|b' f' d' a'] & Hin & Heq); [done|].
    case_decide; [|done]. simplify_eq. eauto.
  - intros (b & Hb & Hin). exists (Settled b f d a).
    split; [done|]. by rewrite decide_True.
Qed.

Lemma elem_of_retries f d a tr :
  (f, d, a) ∈ retries tr ↔ Settled 5 f d a ∈ tr.
Proof.
  unfold retries. rewrite list_elem_of_omap. split.
  - intros ([|b' f' d' a'] & Hin & Heq); [done|].
    case_decide; [|done]. by simplify_eq.
  - intros Hin. exists (Settled 5 f d a). split; [done|]. by rewrite decide_True.
Qed.

Lemma failedFirst_submseteq tr : failedFirst tr ⊆+ (mainAttempts tr).*1.
Proof.
  induction tr as [|ev tr IH]; [done|].
  destruct ev as [b f d|b f d [e|]]; csimpl; try done.
  - case_decide; [|done]. csimpl.
    destruct (isFatalError e); [by apply submseteq_cons|by apply submseteq_skip].
  - case_decide; [|done]. csimpl. by apply submseteq_cons.
Qed.

Lemma failedFirst_among (X : list string) tr :
  Forall (fun ev => fileOf ev ∈ X) tr →
  Forall (fun entry => entry.1 ∈ X) (failedFirst tr).
Proof.
  induction 1 as [|ev tr Hev _ IH]; [constructor|].
  destruct ev as [b f d|b f d [e|]]; csimpl; try done.
  case_decide; [|done]. destruct (isFatalError e); [done|]. by constructor.
Qed.

Lemma among_submitted (X : list string) b entries :
  Forall (fun entry => entry.1 ∈ X) entries →
  Forall (fun ev => fileOf ev ∈ X) (map (submittedEvent b) entries).
Proof.
  rewrite !Forall_forall. intros HX ev (x & -> & Hx)%list_elem_of_fmap.
  by apply HX.
Qed.

Lemma among_settled (X : list string) b entries atts :
  Forall (fun entry => entry.1 ∈ X) entries →
  Forall (fun a => a.1 ∈ entries) atts →
  Forall (fun ev => fileOf ev ∈ X) (map (settledEvent b) atts).
Proof.
  rewrite !Forall_forall. intros HX Hin ev (a & -> & Ha)%list_elem_of_fmap.
  apply (HX a.1). by apply Hin.
Qed.

Lemma elem_of_concat_lookup {A} (ls : list (list A)) i l x :
  ls !! i = Some l → x ∈ l → x ∈ concat ls.
Proof.
  intros Hl Hx. apply list_elem_of_In, in_concat. exists l.
  split; apply list_elem_of_In; [by eapply list_elem_of_lookup_2|done].
Qed.

End Readings.

(** ** The main pass *)

Section MainPass.
Context `{host : Host}.
Variables (accountId : Z) (src dest : string) (options : Options).
Variable filesByType : list (list string).

Local Abbreviation destPathOf := (destPathOf src dest).
Local Abbreviation entriesOf := (entriesOf src dest).
Local Abbreviation uploadFile := (uploadFile accountId src dest options).
Local Abbreviation uploadBatches := (uploadBatches accountId src dest options).
Local Abbreviation Steady := (Steady src dest filesByType).
Local Abbreviation Halted := (Halted src dest filesByType).

Lemma rightDest_submitted b fs :
  Forall (rightDest src dest) (map (submittedEvent b) (entriesOf fs)).
Proof.
  apply Forall_forall. intros ev (x & -> & (f & -> & _)%list_elem_of_fmap)%list_elem_of_fmap.
  done.
Qed.

Lemma rightDest_settled b fs atts :
  Forall (fun a => a.1 ∈ entriesOf fs) atts →
  Forall (rightDest src dest) (map (settledEvent b) atts).
Proof.
  rewrite !Forall_forall. intros Hin ev (a & -> & Ha)%list_elem_of_fmap.
  apply Hin in Ha as (f & Hf & _)%list_elem_of_fmap.
  destruct a as [[f' d] a]. simpl in *. by injection Hf as -> ->.
Qed.

Lemma quiet_submitted b entries : Forall quiet (map (submittedEvent b) entries).
Proof. apply Forall_forall. by intros ev (x & -> & _)%list_elem_of_fmap. Qed.

Lemma quiet_settled b atts :
  Forall (fun a => resolved a.2 = true) atts →
  Forall quiet (map (settledEvent b) atts).
Proof.
  rewrite !Forall_forall. intros Hres ev (a & -> & Ha)%list_elem_of_fmap.
  by apply Hres.
Qed.

Lemma entriesOf_among i fs :
  filesByType !! i = Some fs →
  Forall (fun entry => entry.1 ∈ concat filesByType) (entriesOf fs).
Proof.
  intros Hfs. apply Forall_forall. intros entry (f & -> & Hf)%list_elem_of_fmap.
  by eapply elem_of_concat_lookup.
Qed.

Lemma steady_init w : Steady 0 {| world := w; failures := []; trace := [] |}.
Proof.
  split; simpl; try done.
  - intros ev Hev. by apply elem_of_nil in Hev.
  - intros pre b' f d post b Heq. by destruct pre.
Qed.

Lemma steady_step i fs st st' atts :
  Steady i st → filesByType !! i = Some fs → i < 5 →
  trace st' = trace st ++ map (submittedEvent i) (entriesOf fs)
                ++ map (settledEvent i) atts →
  atts.*1 ≡ₚ entriesOf fs →
  Forall (fun a => resolved a.2 = true) atts →
  failures st' = failures st ++ transient atts →
  Steady (S i) st'.
Proof.
  intros [HA HB HC HD HE HF HG HH HJ HK] Hfs Hi Htr Hperm Hres Hfail.
  assert (submittedIn i (trace st) = [] ∧ resolvedIn i (trace st) = []) as [Hsi Hri].
  { split; [apply submittedIn_other|apply resolvedIn_other];
      intros ev Hev; specialize (HA ev Hev); lia. }
  split; rewrite Htr.
  - intros ev [Hev|Hev]%elem_of_app.
    + specialize (HA ev Hev). lia.
    + rewrite (batchOf_segment i _ _ ev Hev). lia.
  - by apply barrier_extend.
  - intros b Hb.
    rewrite !submittedIn_app, !resolvedIn_app, submittedIn_settled,
      resolvedIn_submitted, app_nil_r. simpl.
    destruct (decide (b = i)) as [->|Hne].
    + rewrite Hsi, Hri, submittedIn_submitted, resolvedIn_settled by done. done.
    + rewrite (submittedIn_other b (map _ _)), (resolvedIn_other b (map _ _)), !app_nil_r.
      * apply HC. lia.
      * intros ev (x & -> & _)%list_elem_of_fmap. done.
      * intros ev (x & -> & _)%list_elem_of_fmap. done.
  - rewrite !Forall_app. split_and!; [done|apply rightDest_submitted|].
    apply (rightDest_settled i fs). apply Forall_forall. intros a Ha.
    rewrite <- Hperm. by apply list_elem_of_fmap_2.
  - rewrite !Forall_app. split_and!; [done|apply quiet_submitted|by apply quiet_settled].
  - rewrite !failedFirst_app, failedFirst_submitted, failedFirst_settled by done.
    simpl. by rewrite Hfail, HF.
  - rewrite !mainTasks_app, mainTasks_submitted, mainTasks_settled, app_nil_r.
    rewrite decide_True by done.
    rewrite (take_S_r _ _ fs) by done.
    rewrite map_app, concat_app. simpl. by rewrite app_nil_r, HG.
  - intros b.
    rewrite !submittedIn_app, submittedIn_settled, app_nil_r, HH.
    destruct (decide (b = i)) as [->|Hne].
    + rewrite submittedIn_submitted, decide_False, decide_True by lia. simpl.
      by rewrite (list_lookup_total_correct _ _ _ Hfs).
    + rewrite (submittedIn_other b (map _ _)), app_nil_r.
      * repeat case_decide; try done; lia.
      * intros ev (x & -> & _)%list_elem_of_fmap. done.
  - rewrite !mainAttempts_app, !mainTasks_app, mainAttempts_submitted,
      mainAttempts_settled, mainTasks_submitted, mainTasks_settled.
    rewrite !decide_True by done. simpl. rewrite app_nil_r, fmap_app.
    by rewrite HJ, Hperm.
  - rewrite !Forall_app. split_and!; [done| |].
    + eapply among_submitted, entriesOf_among; eauto.
    + eapply among_settled; [by eapply entriesOf_among|].
      apply Forall_forall. intros a Ha. rewrite <- Hperm. by apply list_elem_of_fmap_2.
Qed.

Lemma halted_step i fs st st' atts f e :
  Steady i st → filesByType !! i = Some fs → i < 5 →
  trace st' = trace st ++ map (submittedEvent i) (entriesOf fs)
                ++ map (settledEvent i) atts
                ++ [settledEvent i (f, destPathOf f, Some e)] →
  isFatalError e = true → f ∈ fs →
  Forall (fun a => a.1 ∈ entriesOf fs) atts →
  Forall (fun a => resolved a.2 = true) atts →
  Halted e st'.
Proof.
  intros [HA HB HC HD HE HF HG HH HJ HK] Hfs Hi Htr Hfatal Hf Hin Hres.
  assert (trace st' = trace st ++ map (submittedEvent i) (entriesOf fs)
            ++ map (settledEvent i) (atts ++ [(f, destPathOf f, Some e)])) as Htr'
    by (rewrite map_app; done).
  split.
  - rewrite Htr'. intros ev [Hev|Hev]%elem_of_app.
    + specialize (HA ev Hev). lia.
    + rewrite (batchOf_segment i _ _ ev Hev). lia.
  - rewrite Htr'. by apply barrier_extend.
  - rewrite Htr'. rewrite !Forall_app. split_and!; [done|apply rightDest_submitted|].
    apply (rightDest_settled i fs). apply Forall_app. split; [done|].
    constructor; [|done]. simpl. by apply (list_elem_of_fmap_2 (fun f => (f, destPathOf f))).
  - exists (trace st ++ map (submittedEvent i) (entriesOf fs) ++ map (settledEvent i) atts),
      i, f, (destPathOf f).
    split_and!; [by rewrite Htr, <- !app_assoc|done|].
    rewrite !Forall_app. split_and!; [done|apply quiet_submitted|by apply quiet_settled].
  - exists (S i). split_and!.
    + apply lookup_lt_Some in Hfs. lia.
    + rewrite Htr'.
      rewrite !mainTasks_app, mainTasks_submitted, mainTasks_settled, app_nil_r.
      rewrite decide_True by done.
      rewrite (take_S_r _ _ fs) by done.
      rewrite map_app, concat_app. simpl. by rewrite app_nil_r, HG.
    + intros b _. rewrite Htr'.
      rewrite !submittedIn_app, submittedIn_settled, app_nil_r, HH.
      destruct (decide (b = i)) as [->|Hne].
      * rewrite submittedIn_submitted, decide_False, decide_True by lia. simpl.
        by rewrite (list_lookup_total_correct _ _ _ Hfs).
      * rewrite (submittedIn_other b (map _ _)), app_nil_r.
        -- repeat case_decide; try done; lia.
        -- intros ev (x & -> & _)%list_elem_of_fmap. done.
  - rewrite submittedIn_other; [apply submseteq_nil_l|].
    rewrite Htr'. intros ev [Hev|Hev]%elem_of_app.
    + specialize (HA ev Hev). lia.
    + rewrite (batchOf_segment i _ _ ev Hev). lia.
  - rewrite submittedIn_other; [by intros entry ?%elem_of_nil|].
    rewrite Htr'. intros ev [Hev|Hev]%elem_of_app.
    + specialize (HA ev Hev). lia.
    + rewrite (batchOf_segment i _ _ ev Hev). lia.
  - rewrite Htr', !Forall_app. split_and!; [done| |].
    + eapply among_submitted, entriesOf_among; eauto.
    + eapply among_settled; [by eapply entriesOf_among|].
      apply Forall_app. split; [done|]. constructor; [|done].
      simpl. by apply (list_elem_of_fmap_2 (fun f => (f, destPathOf f))).
Qed.

Lemma uploadBatches_cons i fs rest st :
  uploadBatches i (fs :: rest) st =
  match addAll (map (uploadFile i) fs) (submitAll i (entriesOf fs) st) with
  | (inl e, st') => (inl e, st')
  | (inr _, st') => uploadBatches (S i) rest st'
  end.
Proof. reflexivity. Qed.

(** The main pass leaves the run steady after the last batch, or halted. *)
Lemma uploadBatches_spec cats i st :
  cats = drop i filesByType → i ≤ length filesByType → length filesByType ≤ 5 →
  Steady i st →
  match uploadBatches i cats st with
  | (inr _, st') => Steady (length filesByType) st'
  | (inl e, st') => Halted e st'
  end.
Proof.
  revert i st. induction cats as [|fs cats IH]; intros i st Hdrop Hi Hlen Hst.
  - simpl. symmetry in Hdrop. apply drop_nil_inv in Hdrop.
    by replace (length filesByType) with i by lia.
  - assert (filesByType !! i = Some fs) as Hfs.
    { rewrite <- (Nat.add_0_r i), <- lookup_drop, <- Hdrop. done. }
    assert (cats = drop (S i) filesByType) as Hcats.
    { rewrite <- Nat.add_1_r, <- drop_drop, <- Hdrop. done. }
    pose proof (lookup_lt_Some _ _ _ Hfs) as Hlt.
    rewrite uploadBatches_cons.
    pose proof (uploadBatch_spec accountId src dest options i fs
                  (submitAll i (entriesOf fs) st)) as Hbatch.
    destruct (addAll _ _) as [[e|vs] st'].
    + destruct Hbatch as (atts & f & Htr & Hfatal & Hf & Hin & Hres & _).
      eapply (halted_step i fs st st' atts f e); eauto; [lia|].
      rewrite Htr. simpl. by rewrite <- !app_assoc.
    + destruct Hbatch as (atts & Htr & Hperm & Hres & Hfail).
      apply IH; [done|lia|done|].
      eapply (steady_step i fs st st' atts); eauto; [lia|].
      rewrite Htr. simpl. by rewrite <- !app_assoc.
Qed.

(** ** The retry pass *)

Local Abbreviation Finished := (Finished src dest filesByType).

Lemma failedFirst_dest tr :
  Forall (rightDest src dest) tr →
  Forall (fun entry => entry.2 = destPathOf entry.1) (failedFirst tr).
Proof.
  induction 1 as [|ev tr Hev _ IH]; [constructor|].
  destruct ev as [b f d|b f d [e|]]; csimpl; try done.
  case_decide; [|done]. destruct (isFatalError e); [done|]. by constructor.
Qed.

Lemma rightDest_retry_submitted entries :
  Forall (fun entry => entry.2 = destPathOf entry.1) entries →
  Forall (rightDest src dest) (map (submittedEvent 5) entries).
Proof.
  rewrite !Forall_forall. intros Hd ev (x & -> & Hx)%list_elem_of_fmap.
  by apply Hd.
Qed.

Lemma rightDest_retry_settled entries atts :
  Forall (fun entry => entry.2 = destPathOf entry.1) entries →
  Forall (fun a => a.1 ∈ entries) atts →
  Forall (rightDest src dest) (map (settledEvent 5) atts).
Proof.
  rewrite !Forall_forall. intros Hd Hin ev (a & -> & Ha)%list_elem_of_fmap.
  apply (Hd a.1). by apply Hin.
Qed.

Lemma retry_finished stm st results atts :
  length filesByType = 5 → Steady 5 stm →
  trace st = trace stm ++ map (submittedEvent 5) (failures stm)
               ++ map (settledEvent 5) atts →
  atts.*1 ≡ₚ failures stm →
  Forall (fun a => resolved a.2 = true) atts →
  results ≡ₚ map (fun a => outcome a.1.1 a.2) atts →
  map file results = (failures stm).*1 →
  Finished results st.
Proof.
  intros Hlen [HA HB HC HD HE HF HG HH HJ HK] Htr Hperm Hres Hresults Hfiles.
  assert (Forall quiet (trace st)) as Hquiet.
  { rewrite Htr, !Forall_app.
    split_and!; [done|apply quiet_submitted|by apply quiet_settled]. }
  assert (failedFirst (trace st) = failures stm) as Hff.
  { rewrite Htr, !failedFirst_app, failedFirst_submitted, failedFirst_retries,
      !app_nil_r. done. }
  assert (retries (trace st) = atts) as Hretries.
  { rewrite Htr, !retries_app, retries_submitted, retries_settled.
    rewrite retries_other; [done|]. intros ev Hev. specialize (HA ev Hev). lia. }
  assert (submittedIn 5 (trace stm) = [] ∧ resolvedIn 5 (trace stm) = []) as [Hs5 Hr5].
  { split; [apply submittedIn_other|apply resolvedIn_other];
      intros ev Hev; specialize (HA ev Hev); lia. }
  split.
  - rewrite Htr. intros ev [Hev|Hev]%elem_of_app.
    + specialize (HA ev Hev). lia.
    + by rewrite (batchOf_segment 5 _ _ ev Hev).
  - rewrite Htr. by apply barrier_extend.
  - intros b Hb. rewrite Htr.
    rewrite !submittedIn_app, !resolvedIn_app, submittedIn_settled,
      resolvedIn_submitted, app_nil_r. simpl.
    destruct (decide (b = 5)) as [->|Hne].
    + rewrite Hs5, Hr5, submittedIn_submitted, resolvedIn_settled by done. done.
    + rewrite (submittedIn_other b (map _ _)), (resolvedIn_other b (map _ _)), !app_nil_r.
      * apply HC. lia.
      * intros ev (x & -> & _)%list_elem_of_fmap. done.
      * intros ev (x & -> & _)%list_elem_of_fmap. done.
  - rewrite Htr, !Forall_app.
    assert (Forall (fun entry => entry.2 = destPathOf entry.1) (failures stm)) as Hd
      by (rewrite HF; by apply failedFirst_dest).
    split_and!; [done|by apply rightDest_retry_submitted|].
    apply (rightDest_retry_settled (failures stm)); [done|].
    apply Forall_forall. intros a Ha. rewrite <- Hperm. by apply list_elem_of_fmap_2.
  - done.
  - rewrite Htr, !mainTasks_app, mainTasks_submitted, mainTasks_settled.
    rewrite decide_False by lia. rewrite !app_nil_r, HG.
    by rewrite take_ge by lia.
  - intros b Hb. rewrite Htr, !submittedIn_app, submittedIn_settled, app_nil_r, HH.
    rewrite decide_True by done.
    rewrite (submittedIn_other b (map _ _)), app_nil_r; [done|].
    intros ev (x & -> & _)%list_elem_of_fmap. simpl. lia.
  - rewrite Hff, Htr, !submittedIn_app, submittedIn_settled, app_nil_r, Hs5.
    by rewrite submittedIn_submitted.
  - rewrite Htr, !mainAttempts_app, !mainTasks_app, mainAttempts_submitted,
      mainAttempts_settled, mainTasks_submitted, mainTasks_settled.
    rewrite !decide_False by lia. by rewrite !app_nil_r.
  - by rewrite Hretries, Hff.
  - by rewrite retryOutcomes_retries, Hretries.
  - by rewrite Hff.
  - assert (Forall (fun entry => entry.1 ∈ concat filesByType) (failures stm)) as Hfm
      by (rewrite HF; by apply failedFirst_among).
    rewrite Htr, !Forall_app. split_and!; [done|by apply among_submitted|].
    eapply among_settled; [done|].
    apply Forall_forall. intros a Ha. rewrite <- Hperm. by apply list_elem_of_fmap_2.
Qed.

Lemma retry_halted stm st atts f d e :
  length filesByType = 5 → Steady 5 stm →
  trace st = trace stm ++ map (submittedEvent 5) (failures stm)
               ++ map (settledEvent 5) atts ++ [settledEvent 5 (f, d, Some e)] →
  isFatalError e = true → (f, d) ∈ failures stm →
  Forall (fun a => a.1 ∈ failures stm) atts →
  Forall (fun a => resolved a.2 = true) atts →
  Halted e st.
Proof.
  intros Hlen [HA HB HC HD HE HF HG HH HJ HK] Htr Hfatal Hf Hin Hres.
  assert (trace st = trace stm ++ map (submittedEvent 5) (failures stm)
            ++ map (settledEvent 5) (atts ++ [(f, d, Some e)])) as Htr'
    by (rewrite map_app; done).
  split.
  - rewrite Htr'. intros ev [Hev|Hev]%elem_of_app.
    + specialize (HA ev Hev). lia.
    + by rewrite (batchOf_segment 5 _ _ ev Hev).
  - rewrite Htr'. by apply barrier_extend.
  - rewrite Htr', !Forall_app.
    assert (Forall (fun entry => entry.2 = destPathOf entry.1) (failures stm)) as Hd
      by (rewrite HF; by apply failedFirst_dest).
    split_and!; [done|by apply rightDest_retry_submitted|].
    apply (rightDest_retry_settled (failures stm)); [done|].
    apply Forall_app. split; [done|]. by constructor.
  - exists (trace stm ++ map (submittedEvent 5) (failures stm)
              ++ map (settledEvent 5) atts), 5, f, d.
    split_and!; [by rewrite Htr, <- !app_assoc|done|].
    rewrite !Forall_app. split_and!; [done|apply quiet_submitted|by apply quiet_settled].
  - exists 5. split_and!; [lia| |].
    + rewrite Htr', !mainTasks_app, mainTasks_submitted, mainTasks_settled.
      rewrite decide_False by lia. by rewrite !app_nil_r, HG.
    + intros b Hb. rewrite Htr', !submittedIn_app, submittedIn_settled, app_nil_r, HH.
      rewrite (submittedIn_other b (map _ _)), app_nil_r; [done|].
      intros ev (x & -> & _)%list_elem_of_fmap. simpl. lia.
  - rewrite Htr', !submittedIn_app, submittedIn_settled, submittedIn_submitted, app_nil_r.
    rewrite !mainTasks_app, mainTasks_submitted, mainTasks_settled.
    rewrite decide_False by lia. rewrite !app_nil_r.
    rewrite submittedIn_other by (intros ev Hev; specialize (HA ev Hev); lia).
    simpl. rewrite HF, <- HJ. apply failedFirst_submseteq.
  - rewrite Htr', !submittedIn_app, submittedIn_settled, submittedIn_submitted, app_nil_r.
    rewrite submittedIn_other by (intros ev Hev; specialize (HA ev Hev); lia).
    rewrite !failedFirst_app, failedFirst_submitted, failedFirst_retries, !app_nil_r.
    simpl. by rewrite HF.
  - assert (Forall (fun entry => entry.1 ∈ concat filesByType) (failures stm)) as Hfm
      by (rewrite HF; by apply failedFirst_among).
    rewrite Htr', !Forall_app. split_and!; [done|by apply among_submitted|].
    eapply among_settled; [done|].
    apply Forall_app. split; [done|]. by constructor.
Qed.

End MainPass.

(** ** The whole run *)

Section WholeRun.
Context `{host : Host}.
Variables (accountId : Z) (src dest : string) (options : Options).

Local Abbreviation Finished := (Finished src dest).
Local Abbreviation Halted := (Halted src dest).

Lemma getFilesByType_length files filesByType :
  getFilesByType files = inr filesByType → length filesByType = 5.
Proof.
  unfold getFilesByType. destruct (sortFiles _ _); [done|]. by intros [= <-].
Qed.

(** A run is rejected by the classification before it uploads anything, is
    halted by a fatal error, or finishes. *)
Lemma uploadFiles_spec files w :
  match getFilesByType (allowedFiles files) with
  | inl e =>
      uploadFiles accountId src dest options files w
      = (inl e, {| world := w; failures := []; trace := [] |})
  | inr filesByType =>
      match uploadFiles accountId src dest options files w with
      | (inr results, st) => Finished filesByType results st
      | (inl e, st) => Halted filesByType e st
      end
  end.
Proof.
  unfold uploadFiles.
  destruct (getFilesByType _) as [e|filesByType] eqn:Hsort; [done|].
  pose proof (getFilesByType_length _ _ Hsort) as Hlen.
  pose proof (uploadBatches_spec accountId src dest options filesByType
                filesByType 0 {| world := w; failures := []; trace := [] |}
                eq_refl ltac:(lia) ltac:(lia) (steady_init src dest filesByType w))
    as Hmain.
  destruct (uploadBatches _ _ _ _ _ _ _) as [[e|[]] stm]; [done|].
  rewrite Hlen in Hmain.
  pose proof (retryBatch_spec accountId options (failures stm)
                (submitAll 5 (failures stm) stm)) as Hretry.
  destruct (addAll _ _) as [[e|results] st].
  - destruct Hretry as (atts & f & d & Htr & Hfatal & Hf & Hin & Hres).
    eapply (retry_halted src dest filesByType stm st atts f d e); eauto.
    rewrite Htr. simpl. by rewrite <- !app_assoc.
  - destruct Hretry as (atts & Htr & Hperm & Hres & Hresults & Hfiles).
    eapply (retry_finished src dest filesByType stm st results atts); eauto.
    rewrite Htr. simpl. by rewrite <- !app_assoc.
Qed.

(** A run depends on the files that [walk] found through the arrays only. *)
Lemma uploadFiles_ext files files' w :
  getFilesByType (allowedFiles files) = getFilesByType (allowedFiles files') →
  uploadFiles accountId src dest options files w
  = uploadFiles accountId src dest options files' w.
Proof. intros Heq. unfold uploadFiles. by rewrite Heq. Qed.

Local Abbreviation uploadFiles := (uploadFiles accountId src dest options).
Local Abbreviation uploadFolder := (uploadFolder accountId src dest options).

Lemma run_cases files w :
  (∃ e, getFilesByType (allowedFiles files) = inl e ∧
        uploadFiles files w = (inl e, {| world := w; failures := []; trace := [] |})) ∨
  (∃ filesByType results st,
      getFilesByType (allowedFiles files) = inr filesByType ∧
      uploadFiles files w = (inr results, st) ∧ Finished filesByType results st) ∨
  (∃ filesByType e st,
      getFilesByType (allowedFiles files) = inr filesByType ∧
      uploadFiles files w = (inl e, st) ∧ Halted filesByType e st).
Proof.
  pose proof (uploadFiles_spec files w) as Hspec.
  destruct (getFilesByType (allowedFiles files)) as [e|filesByType]; [left; eauto|].
  destruct (uploadFiles files w) as [[e|results] st]; right; [right|left]; eauto 10.
Qed.

(** A task of batch [k] is made from a file of the array [k], and a retry
    from an entry of [failures]. *)
Lemma run_submitted files w filesByType k f d :
  getFilesByType (allowedFiles files) = inr filesByType →
  Submitted k f d ∈ trace (uploadFiles files w).2 →
  (k < 5 ∧ f ∈ filesByType !!! k) ∨
  (k = 5 ∧ (f, d) ∈ failedFirst (trace (uploadFiles files w).2)).
Proof.
  intros Hsort Hev.
  assert (∀ fs, (f, d) ∈ entriesOf src dest fs → f ∈ fs) as Hentry.
  { intros fs (g & [= -> ->] & Hg)%list_elem_of_fmap. done. }
  destruct (run_cases files w)
    as [(e & _ & Hrun)|[(c & r & st & Hc & Hrun & H)|(c & e & st & Hc & Hrun & H)]];
    rewrite Hrun in *; simpl in *.
  - by apply elem_of_nil in Hev.
  - assert (c = filesByType) as -> by congruence.
    pose proof (finished_batches _ _ _ _ _ H _ Hev) as Hk. simpl in Hk.
    apply elem_of_submittedIn in Hev.
    destruct (decide (k = 5)) as [->|Hne].
    + right. split; [done|]. by rewrite <- (finished_retried _ _ _ _ _ H).
    + left. split; [lia|].
      rewrite (finished_submitted _ _ _ _ _ H) in Hev by lia. by apply Hentry.
  - assert (c = filesByType) as -> by congruence.
    pose proof (halted_batches _ _ _ _ _ H _ Hev) as Hk. simpl in Hk.
    apply elem_of_submittedIn in Hev.
    destruct (decide (k = 5)) as [->|Hne].
    + right. split; [done|]. by apply (halted_retry_failed _ _ _ _ _ H).
    + left. split; [lia|].
      destruct (halted_tasks _ _ _ _ _ H) as (n & _ & _ & Hsub).
      rewrite Hsub in Hev by lia.
      case_decide; [by apply Hentry|by apply elem_of_nil in Hev].
Qed.

(** The file of every event of a run is in one of the arrays. *)
Lemma run_among files w filesByType ev :
  getFilesByType (allowedFiles files) = inr filesByType →
  ev ∈ trace (uploadFiles files w).2 → fileOf ev ∈ concat filesByType.
Proof.
  intros Hsort Hev.
  destruct (run_cases files w)
    as [(e & _ & Hrun)|[(c & r & st & Hc & Hrun & H)|(c & e & st & Hc & Hrun & H)]];
    rewrite Hrun in *; simpl in *.
  - by apply elem_of_nil in Hev.
  - assert (c = filesByType) as -> by congruence.
    pose proof (finished_among _ _ _ _ _ H) as Hall.
    rewrite Forall_forall in Hall. by apply Hall.
  - assert (c = filesByType) as -> by congruence.
    pose proof (halted_among _ _ _ _ _ H) as Hall.
    rewrite Forall_forall in Hall. by apply Hall.
Qed.

(** Every event of a run has the destination computed from its file. *)
Lemma run_rightDest files w :
  Forall (rightDest src dest) (trace (uploadFiles files w).2).
Proof.
  destruct (run_cases files w) as [(e & _ & ->)|[(c & r & st & _ & -> & H)|(c & e & st & _ & -> & H)]];
    simpl; [done|apply H..].
Qed.


End WholeRun.

(** ** The classification *)

Section Classification.
Context `{host : Host}.

Lemma buckets_eq (b1 b2 : Buckets) :
  moduleFiles b1 = moduleFiles b2 → cssAndJsFiles b1 = cssAndJsFiles b2 →
  otherFiles b1 = otherFiles b2 → templateFiles b1 = templateFiles b2 →
  jsonFiles b1 = jsonFiles b2 → b1 = b2.
Proof. destruct b1, b2. simpl. by intros -> -> -> -> ->. Qed.

Lemma joinBuckets_noFiles_r b : joinBuckets b noFiles = b.
Proof. apply buckets_eq; simpl; apply app_nil_r. Qed.

Lemma joinBuckets_noFiles_l b : joinBuckets noFiles b = b.
Proof. by apply buckets_eq. Qed.

Lemma joinBuckets_assoc b1 b2 b3 :
  joinBuckets b1 (joinBuckets b2 b3) = joinBuckets (joinBuckets b1 b2) b3.
Proof. apply buckets_eq; simpl; apply app_assoc. Qed.

(** The callback adds to the buckets what it would put in empty ones. *)
Lemma sortFile_join b f :
  sortFile b f = match sortFile noFiles f with
                 | inl e => inl e
                 | inr d => inr (joinBuckets b d)
                 end.
Proof.
  unfold sortFile.
  repeat (case_match; try done);
    f_equal; apply buckets_eq; simpl; by rewrite ?app_nil_r, <- ?app_assoc.
Qed.

Lemma sortFiles_join b files :
  sortFiles b files = match sortFiles noFiles files with
                      | inl e => inl e
                      | inr d => inr (joinBuckets b d)
                      end.
Proof.
  revert b. induction files as [|f files IH]; intros b; simpl.
  - by rewrite joinBuckets_noFiles_r.
  - rewrite (sortFile_join b f). destruct (sortFile noFiles f) as [e|d]; [done|].
    rewrite (IH (joinBuckets b d)), (IH d).
    destruct (sortFiles noFiles files); [done|]. by rewrite joinBuckets_assoc.
Qed.

Lemma sortFiles_app b l1 l2 :
  sortFiles b (l1 ++ l2) = match sortFiles b l1 with
                           | inl e => inl e
                           | inr b1 => sortFiles b1 l2
                           end.
Proof.
  revert b. induction l1 as [|f l1 IH]; intros b; simpl; [done|].
  destruct (sortFile b f); [done|]. apply IH.
Qed.


(** A file the callback leaves out can be left out of the list. *)
Lemma sortFiles_without l1 f l2 :
  (∀ b, sortFile b f = inr b) →
  sortFiles noFiles (l1 ++ f :: l2) = sortFiles noFiles (l1 ++ l2).
Proof.
  intros Hf. rewrite !sortFiles_app.
  destruct (sortFiles noFiles l1) as [e|b1]; [done|]. simpl. by rewrite Hf.
Qed.

(** *** The three cases of the fields files *)


Lemma sortFile_static_dropped b json :
  inModuleFolder json = true → fileName json = "fields.json" →
  getExt json = "json" → includes "fields.js" (siblings json) = true →
  sortFile b json = inr b.
Proof.
  intros Hin Hname Hext Hsib. unfold sortFile. by rewrite Hin, Hname, Hext, Hsib.
Qed.


(** *** Errors of the classification *)

Lemma sortFile_error b f e :
  sortFile b f = inl e ↔
  inModuleFolder f = true ∧ fileName f = "fields.js" ∧ convertFieldsJs f = inl e.
Proof.
  unfold sortFile. split.
  - repeat (case_match; try done). intros [= ->].
    split_and!; [done|by apply String.eqb_eq|done].
  - intros (-> & -> & ->). done.
Qed.

Lemma sortFiles_error b files e :
  sortFiles b files = inl e ↔
  ∃ before js after b1,
    files = before ++ js :: after ∧ sortFiles b before = inr b1 ∧
    sortFile b1 js = inl e.
Proof.
  revert b. induction files as [|f files IH]; intros b; simpl.
  - split; [done|]. intros (before & js & after & b1 & Heq & _). by destruct before.
  - destruct (sortFile b f) as [e'|b'] eqn:Hf.
    + split.
      * intros [= ->]. by exists [], f, files, b.
      * intros ([|g before] & js & after & b1 & Heq & Hbefore & Hjs);
          simpl in *; simplify_eq; [congruence|].
        rewrite Hf in Hbefore. done.
    + rewrite IH. split.
      * intros (before & js & after & b1 & -> & Hbefore & Hjs).
        exists (f :: before), js, after, b1. simpl. by rewrite Hf.
      * intros ([|g before] & js & after & b1 & Heq & Hbefore & Hjs);
          simpl in *; simplify_eq; [congruence|].
        rewrite Hf in Hbefore. eauto 10.
Qed.

(** *** Files in a module folder *)

Lemma endsWith_truthy part suffix :
  suffix ≠ "" → endsWith part suffix = true → truthy part = true.
Proof.
  intros Hne. destruct part as [|c part]; [|done].
  destruct suffix as [|c suffix]; [done|]. done.
Qed.

(** [inModuleFolder] says that a segment of the path ends with [.module]. *)
Lemma inModuleFolder_spec f :
  inModuleFolder f = true ↔
  ∃ part, part ∈ splitLocalPath f ∧ endsWith part ".module" = true.
Proof.
  unfold inModuleFolder, moduleFolder. split.
  - destruct (List.find _ _) as [part|] eqn:Hfind; [|done]. intros _.
    apply find_some in Hfind as [Hin Hends]. exists part.
    split; [by apply list_elem_of_In|done].
  - intros (part & Hin & Hends).
    destruct (List.find _ _) as [part'|] eqn:Hfind.
    + apply find_some in Hfind as [_ Hends'].
      by apply (endsWith_truthy part' ".module").
    + apply list_elem_of_In in Hin.
      pose proof (find_none _ _ Hfind part Hin) as Hno. simpl in Hno. congruence.
Qed.

Lemma sortFile_byExtension b f b' x :
  sortFile b f = inr b' → x ∈ byExtension b' →
  x ∈ byExtension b ∨ (x = f ∧ inModuleFolder f = false).
Proof.
  unfold sortFile, byExtension.
  repeat (case_match; try done); intros [= <-]; simpl;
    rewrite ?elem_of_app, ?list_elem_of_singleton; intuition (subst; auto).
Qed.

Lemma sortFiles_byExtension b files b' x :
  sortFiles b files = inr b' → x ∈ byExtension b' →
  x ∈ byExtension b ∨ (x ∈ files ∧ inModuleFolder x = false).
Proof.
  revert b. induction files as [|f files IH]; intros b; simpl.
  - intros [= <-]. by left.
  - destruct (sortFile b f) as [e|b1] eqn:Hf; [done|]. intros Hrest Hx.
    destruct (IH _ Hrest Hx) as [Hb1|[Hin Hno]].
    + destruct (sortFile_byExtension _ _ _ _ Hf Hb1) as [?|[-> ?]]; [by left|].
      right. split; [by left|done].
    + right. split; [by right|done].
Qed.

(** *** What each file contributes *)

Lemma placed_length f : length (placed f) ≤ 1.
Proof.
  unfold placed, sortFile.
  repeat (case_match; try done); simplify_eq; simpl; try lia.
  repeat match goal with H : String.eqb _ _ = true |- _ => apply String.eqb_eq in H end.
  congruence.
Qed.

Lemma placed_nil f :
  placed f = [] ↔ leftOut f = true ∨ ∃ e, sortFile noFiles f = inl e.
Proof.
  unfold placed, leftOut, sortFile.
  repeat (case_match; simplify_eq; simpl; try done);
    split; try done; try (intros [?|[? ?]]; done); try (by left); eauto.
Qed.

(** What the loop pushes for [file]: the artifact for the [fields.js] of a
    module folder, nothing for a file that is left out, else the file. *)
Lemma placed_cases f :
  placed f =
  if inModuleFolder f && String.eqb (fileName f) "fields.js" then
    match convertFieldsJs f with
    | inl _ => []
    | inr converted => [converted]
    end
  else if leftOut f then [] else [f].
Proof.
  unfold placed, leftOut, sortFile.
  repeat (case_match; simplify_eq; simpl in *; try done).
  repeat match goal with H : String.eqb _ _ = true |- _ => apply String.eqb_eq in H end.
  congruence.
Qed.

Lemma batches_joinBuckets b d :
  concat (batches (joinBuckets b d)) ≡ₚ concat (batches b) ++ concat (batches d).
Proof. unfold batches, joinBuckets. simpl. rewrite !app_nil_r. solve_Permutation. Qed.

Lemma sortFiles_placed b files b' :
  sortFiles b files = inr b' →
  concat (batches b') ≡ₚ concat (batches b) ++ flat_map placed files.
Proof.
  revert b. induction files as [|f files IH]; intros b; cbn [sortFiles flat_map].
  - intros [= <-]. by rewrite app_nil_r.
  - rewrite (sortFile_join b f). unfold placed at 1.
    destruct (sortFile noFiles f) as [e|d]; [done|]. intros Hrest.
    rewrite (IH _ Hrest), batches_joinBuckets. by rewrite <- app_assoc.
Qed.

(** Where the files of the arrays come from. *)
Lemma sortFile_origin b f b' x :
  sortFile b f = inr b' → x ∈ concat (batches b') →
  x ∈ concat (batches b) ∨ x = f ∨
  (inModuleFolder f = true ∧ fileName f = "fields.js" ∧ convertFieldsJs f = inr x).
Proof.
  unfold sortFile, batches.
  repeat (case_match; try done); intros [= <-]; simpl;
    rewrite ?app_nil_r, ?elem_of_app, ?list_elem_of_singleton;
    repeat match goal with H : String.eqb _ _ = true |- _ => apply String.eqb_eq in H end;
    intros; simplify_eq; intuition (subst; auto).
Qed.

Lemma sortFiles_origin b files b' x :
  sortFiles b files = inr b' → x ∈ concat (batches b') →
  x ∈ concat (batches b) ∨ x ∈ files ∨
  ∃ js, js ∈ files ∧ inModuleFolder js = true ∧ fileName js = "fields.js" ∧
        convertFieldsJs js = inr x.
Proof.
  revert b. induction files as [|f files IH]; intros b; simpl.
  - intros [= <-]. by left.
  - destruct (sortFile b f) as [e|b1] eqn:Hf; [done|]. intros Hrest Hx.
    destruct (IH _ Hrest Hx) as [Hb1|[Hin|(js & Hjs & Hrest')]].
    + destruct (sortFile_origin _ _ _ _ Hf Hb1) as [?|[->|?]]; [by left| |].
      * right. left. by left.
      * right. right. exists f. split; [by left|done].
    + right. left. by right.
    + right. right. exists js. split; [by right|done].
Qed.

Lemma sortFiles_each b files b' f :
  sortFiles b files = inr b' → f ∈ files → ∃ d, sortFile noFiles f = inr d.
Proof.
  revert b. induction files as [|g files IH]; intros b; simpl.
  - by intros _ ?%elem_of_nil.
  - destruct (sortFile b g) as [e|b1] eqn:Hg; [done|].
    intros Hrest [->|Hin]%elem_of_cons; [|by eapply IH].
    rewrite sortFile_join in Hg. destruct (sortFile noFiles g); [done|]. eauto.
Qed.

(** *** Files that can be left out of the list *)

Lemma sortFiles_filter (keep : string → bool) files b :
  (∀ g, g ∈ files → keep g = false → ∀ b, sortFile b g = inr b) →
  sortFiles b (List.filter keep files) = sortFiles b files.
Proof.
  revert b. induction files as [|f files IH]; intros b Hdrop; [done|]. simpl.
  destruct (keep f) eqn:Hkeep; simpl.
  - destruct (sortFile b f); [done|]. apply IH. intros g Hg. apply Hdrop. by right.
  - rewrite (Hdrop f) by (done || by left). apply IH.
    intros g Hg. apply Hdrop. by right.
Qed.

Lemma allowedFiles_filter (keep : string → bool) files :
  allowedFiles (List.filter keep files) = List.filter keep (allowedFiles files).
Proof.
  unfold allowedFiles. induction files as [|f files IH]; [done|]. simpl.
  destruct (keep f) eqn:Hkeep, (isAllowedExtension f) eqn:Hallowed; simpl;
    rewrite ?Hallowed; simpl; try done.
  - destruct (createIgnoreFilter f); simpl; rewrite ?Hkeep; by rewrite ?IH.
  - destruct (createIgnoreFilter f); simpl; rewrite ?Hkeep; by rewrite ?IH.
Qed.

Lemma elem_of_allowedFiles files f :
  f ∈ allowedFiles files ↔
  f ∈ files ∧ isAllowedExtension f = true ∧ createIgnoreFilter f = true.
Proof.
  unfold allowedFiles. rewrite !list_elem_of_In, !filter_In. tauto.
Qed.

End Classification.

(** * The properties of the pipeline *)

Section Properties.
Context `{host : Host}.
Variables (accountId : Z) (src dest : string) (options : Options).

Local Abbreviation uploadFiles := (uploadFiles accountId src dest options).
Local Abbreviation uploadFolder := (uploadFolder accountId src dest options).
Local Abbreviation destPathOf := (destPathOf src dest).
Local Abbreviation entriesOf := (entriesOf src dest).

(** C9. [hasUploadErrors] answers [true] exactly when some outcome of the
    list is tagged FAILURE; for the empty list it answers [false]. *)
Theorem hasUploadErrors_iff_failure :
  (∀ results : list UploadResult,
      hasUploadErrors results = true ↔
      ∃ r, r ∈ results ∧ resultType r = FileUploadResultType.FAILURE) ∧
  hasUploadErrors [] = false.
Proof.
  split; [|done]. intros results. unfold hasUploadErrors.
  rewrite existsb_exists. split.
  - intros (r & Hin & Heq). exists r.
    split; [by apply list_elem_of_In|by apply String.eqb_eq].
  - intros (r & Hin & Heq). exists r.
    split; [by apply list_elem_of_In|by apply String.eqb_eq].
Qed.

(** C6. A file with a path segment that ends with [.module] is in none of
    the four arrays that are filled by extension, whatever its extension:
    where it is in an array at all, it is in the array of the module files. *)
Theorem module_folder_wins files other bundle styleScript template data f :
  getFilesByType files = inr [other; bundle; styleScript; template; data] →
  (∃ part, part ∈ splitLocalPath f ∧ endsWith part ".module" = true) →
  (f ∉ styleScript) ∧ (f ∉ template) ∧ (f ∉ data) ∧ (f ∉ other) ∧
  (f ∈ concat [other; bundle; styleScript; template; data] → f ∈ bundle).
Proof.
  unfold getFilesByType.
  destruct (sortFiles noFiles files) as [e|b] eqn:Hsort; [done|].
  intros [= <- <- <- <- <-] Hpart. apply inModuleFolder_spec in Hpart.
  assert (f ∉ byExtension b) as Hnot.
  { intros Hin.
    destruct (sortFiles_byExtension _ _ _ _ Hsort Hin) as [Hno|[_ Hno]].
    - by apply elem_of_nil in Hno.
    - congruence. }
  unfold byExtension in Hnot. rewrite !elem_of_app in Hnot.
  split_and!; [tauto..|].
  simpl. rewrite app_nil_r, !elem_of_app. intros Hin. tauto.
Qed.


(** C8. Every task of a run, in the main pass and in the retry pass, and
    every upload that settled, has the destination that is the source root
    removed from the head of the path of the file, the rest joined to the
    destination root, and every backslash of the result made a forward slash:
    for a file [src ++ rest] it is [convertToUnixPath (join dest rest)].
    Whatever separators the [join] of the host writes, the destination has no
    backslash, and it is the path that [join] returns when that has none. *)
Theorem destination_of_every_task files w b f d :
  let st := (uploadFiles files w).2 in
  Submitted b f d ∈ trace st ∨ (∃ a, Settled b f d a ∈ trace st) →
  d = convertToUnixPath (join dest (replaceLeading src f)) ∧
  (∀ rest, f = src +:+ rest → d = convertToUnixPath (join dest rest)) ∧
  (∀ i, String.get i d ≠ Some backslash) ∧
  (∀ rest, f = src +:+ rest →
           (∀ i, String.get i (join dest rest) ≠ Some backslash) →
           d = join dest rest).
Proof.
  intros st Hev.
  assert (d = convertToUnixPath (join dest (replaceLeading src f))) as ->.
  { pose proof (run_rightDest accountId src dest options files w) as Hall.
    rewrite Forall_forall in Hall.
    destruct Hev as [Hev|[a Hev]]; apply (Hall _ Hev). }
  split_and!; [done| |apply convertToUnixPath_get|].
  - intros rest ->. by rewrite replaceLeading_app.
  - intros rest -> Hposix. rewrite replaceLeading_app.
    by apply convertToUnixPath_unix.
Qed.

(** C2. In every run the batches enter the pool in the order of the arrays
    of [getFilesByType]: the tasks of batch 0 are made from [otherFiles],
    those of batch 1 from [moduleFiles], then [cssAndJsFiles],
    [templateFiles] and [jsonFiles], and those of batch 5 are the retries.
    No task enters the pool before every task of every earlier batch has
    entered it and been resolved ([barrier]); in particular no retry enters
    before the five batches have drained. *)
Theorem batches_wait_for_each_other w :
  let run := uploadFolder w in
  barrier (trace run.2) ∧
  (∀ ev, ev ∈ trace run.2 → batchOf ev ≤ 5) ∧
  (∀ b, sortFiles noFiles (allowedFiles (walk src)) = inr b →
     ∀ f d,
       (Submitted 0 f d ∈ trace run.2 → f ∈ otherFiles b) ∧
       (Submitted 1 f d ∈ trace run.2 → f ∈ moduleFiles b) ∧
       (Submitted 2 f d ∈ trace run.2 → f ∈ cssAndJsFiles b) ∧
       (Submitted 3 f d ∈ trace run.2 → f ∈ templateFiles b) ∧
       (Submitted 4 f d ∈ trace run.2 → f ∈ jsonFiles b) ∧
       (Submitted 5 f d ∈ trace run.2 → (f, d) ∈ failedFirst (trace run.2))) ∧
  (∀ results, run.1 = inr results →
     ∀ b, b ≤ 5 → submittedIn b (trace run.2) ≡ₚ resolvedIn b (trace run.2)).
Proof.
  intros run. subst run. unfold uploadFolder.
  split_and!.
  - destruct (run_cases accountId src dest options (walk src) w)
      as [(e & _ & ->)|[(c & r & st & _ & -> & H)|(c & e & st & _ & -> & H)]];
      simpl; [|apply H..].
    intros pre b' f d post b Heq. by destruct pre.
  - destruct (run_cases accountId src dest options (walk src) w)
      as [(e & _ & ->)|[(c & r & st & _ & -> & H)|(c & e & st & _ & -> & H)]];
      simpl; [|apply H..].
    by intros ev ?%elem_of_nil.
  - intros b Hb f d.
    assert (getFilesByType (allowedFiles (walk src)) = inr (batches b)) as Hsort
      by (unfold getFilesByType; by rewrite Hb).
    pose proof (fun k => run_submitted accountId src dest options (walk src) w
                           (batches b) k f d Hsort) as Hsub.
    split_and!; intros Hev; destruct (Hsub _ Hev) as [[? Hin]|[? Hin]];
      done || lia.
  - intros results Hrun b Hb.
    destruct (run_cases accountId src dest options (walk src) w)
      as [(e & _ & Heq)|[(c & r & st & _ & Heq & H)|(c & e & st & _ & Heq & H)]];
      rewrite Heq in *; simpl in *; [done| |done].
    by apply H.
Qed.

(** C3. A run is rejected, with no array of outcomes, by the error that
    [convertFieldsJs] throws for a [fields.js] of a module folder among the
    allowed files (before anything is uploaded) and by the first upload error
    that [isFatalError] calls fatal; it is rejected by nothing else. When it
    resolves, every upload error of the run was transient: the file of each
    one of the main pass is in the array, and each one of the retry pass is
    there as the [error] of a FAILURE outcome. *)
Theorem fatal_errors_escape_transient_do_not w :
  let run := uploadFolder w in
  (∀ e, getFilesByType (allowedFiles (walk src)) = inl e ↔
        ∃ before js after b,
          allowedFiles (walk src) = before ++ js :: after ∧
          sortFiles noFiles before = inr b ∧
          inModuleFolder js = true ∧ fileName js = "fields.js" ∧
          convertFieldsJs js = inl e) ∧
  (∀ e, getFilesByType (allowedFiles (walk src)) = inl e →
        run.1 = inl e ∧ trace run.2 = []) ∧
  (∀ b f d e, Settled b f d (Some e) ∈ trace run.2 → isFatalError e = true →
              run.1 = inl e) ∧
  (∀ e, run.1 = inl e →
        getFilesByType (allowedFiles (walk src)) = inl e ∨
        (isFatalError e = true ∧ ∃ b f d, Settled b f d (Some e) ∈ trace run.2)) ∧
  (∀ results, run.1 = inr results →
     (∀ b f d e, Settled b f d (Some e) ∈ trace run.2 → isFatalError e = false) ∧
     (∀ b f d e, b < 5 → Settled b f d (Some e) ∈ trace run.2 →
                 f ∈ map file results) ∧
     (∀ f d e, Settled 5 f d (Some e) ∈ trace run.2 →
               {| resultType := FileUploadResultType.FAILURE;
                  error := Some e; file := f |} ∈ results)).
Proof.
  intros run. subst run. unfold uploadFolder.
  assert (∀ tr b f d e, Forall quiet tr → Settled b f d (Some e) ∈ tr →
                        isFatalError e = false) as Hquiet.
  { intros tr b f d e Hq Hin. rewrite Forall_forall in Hq.
    specialize (Hq _ Hin). simpl in Hq. by apply negb_true_iff in Hq. }
  split_and!.
  - intros e. unfold getFilesByType.
    destruct (sortFiles noFiles (allowedFiles (walk src))) as [e'|b] eqn:Hsort.
    + split.
      * intros [= ->]. apply sortFiles_error in Hsort
          as (before & js & after & b1 & Heq & Hbefore & Hjs%sortFile_error).
        exists before, js, after, b1. tauto.
      * intros (before & js & after & b1 & Heq & Hbefore & Hin & Hname & Hconv).
        assert (sortFiles noFiles (allowedFiles (walk src)) = inl e) as Herr.
        { apply sortFiles_error. exists before, js, after, b1.
          split_and!; [done..|]. by apply sortFile_error. }
        congruence.
    + split; [done|].
      intros (before & js & after & b1 & Heq & Hbefore & Hin & Hname & Hconv).
      assert (sortFiles noFiles (allowedFiles (walk src)) = inl e) as Herr.
      { apply sortFiles_error. exists before, js, after, b1.
        split_and!; [done..|]. by apply sortFile_error. }
      congruence.
  - intros e He.
    destruct (run_cases accountId src dest options (walk src) w)
      as [(e' & He' & ->)|[(c & r & st & Hc & _)|(c & e' & st & Hc & _)]];
      [|congruence..].
    simpl. split; [congruence|done].
  - intros b f d e Hin Hfatal.
    destruct (run_cases accountId src dest options (walk src) w)
      as [(e' & _ & Heq)|[(c & r & st & _ & Heq & H)|(c & e' & st & _ & Heq & H)]];
      rewrite Heq in *; simpl in *.
    + by apply elem_of_nil in Hin.
    + rewrite (Hquiet _ _ _ _ _ (finished_quiet _ _ _ _ _ H) Hin) in Hfatal. done.
    + destruct (halted_last _ _ _ _ _ H) as (tr & b' & f' & d' & Htr & _ & Hq).
      rewrite Htr in Hin. apply elem_of_app in Hin as [Hin|Hin].
      * rewrite (Hquiet _ _ _ _ _ Hq Hin) in Hfatal. done.
      * apply list_elem_of_singleton in Hin. by simplify_eq.
  - intros e Hrun.
    destruct (run_cases accountId src dest options (walk src) w)
      as [(e' & He' & Heq)|[(c & r & st & _ & Heq & H)|(c & e' & st & _ & Heq & H)]];
      rewrite Heq in *; simpl in *; simplify_eq.
    + by left.
    + right. destruct (halted_last _ _ _ _ _ H) as (tr & b' & f' & d' & Htr & Hfatal & _).
      split; [done|]. exists b', f', d'. rewrite Htr.
      apply elem_of_app. right. by left.
  - intros results Hrun.
    destruct (run_cases accountId src dest options (walk src) w)
      as [(e' & _ & Heq)|[(c & r & st & _ & Heq & H)|(c & e' & st & _ & Heq & H)]];
      rewrite Heq in *; simpl in *; simplify_eq.
    split_and!.
    + intros b f d e. apply Hquiet, H.
    + intros b f d e Hb Hin.
      rewrite (finished_files _ _ _ _ _ H).
      apply list_elem_of_fmap. exists (f, d). split; [done|].
      apply elem_of_failedFirst. exists b, e. split_and!; [done| |done].
      eapply Hquiet; [apply H|done].
    + intros f d e Hin.
      rewrite (finished_results _ _ _ _ _ H).
      unfold retryOutcomes. apply list_elem_of_omap.
      exists (Settled 5 f d (Some e)). split; [done|]. simpl.
      rewrite ?decide_True by done.
      by rewrite (Hquiet _ _ _ _ _ (finished_quiet _ _ _ _ _ H) Hin).
Qed.

(** C1. The array a run resolves to has one outcome for each upload of the
    main pass that was rejected with a transient error, in the order of
    [failures], and these are the outcomes of the retries, each failure being
    retried once. When no two tasks of the main pass are for the same file:
    a file whose retry went through has exactly one outcome, tagged SUCCESS; a
    file whose retry was rejected as well has exactly one, tagged FAILURE with
    the error of the retry; and a file whose first upload went through has
    none. *)
Theorem outcomes_are_the_retried_failures w results :
  let run := uploadFolder w in
  run.1 = inr results →
  map file results = (failedFirst (trace run.2)).*1 ∧
  results ≡ₚ retryOutcomes (trace run.2) ∧
  (retries (trace run.2)).*1 ≡ₚ failedFirst (trace run.2) ∧
  (NoDup (mainTasks (trace run.2)).*1 →
   ∀ f,
     (∀ d, Settled 5 f d None ∈ trace run.2 →
           resultsFor f results = [outcome f None]) ∧
     (∀ d e, Settled 5 f d (Some e) ∈ trace run.2 →
             resultsFor f results = [outcome f (Some e)]) ∧
     (∀ b d, b < 5 → Settled b f d None ∈ trace run.2 →
             resultsFor f results = [])).
Proof.
  intros run Hrun. subst run. unfold uploadFolder in *.
  destruct (run_cases accountId src dest options (walk src) w)
    as [(e' & _ & Heq)|[(c & r & st & _ & Heq & H)|(c & e' & st & _ & Heq & H)]];
    rewrite Heq in *; simpl in *; simplify_eq.
  destruct H as [_ _ _ _ Hquiet _ _ _ Hattempts Hretries Hresults Hfiles _].
  split_and!; [done..|]. intros Hnodup.
  assert (NoDup ((fun a => a.1.1) <$> mainAttempts (trace st))) as HndA.
  { change (NoDup (fst ∘ fst <$> mainAttempts (trace st))).
    rewrite (list_fmap_compose fst fst), Hattempts. done. }
  assert (NoDup (failedFirst (trace st)).*1) as HndF.
  { eapply NoDup_of_submseteq; [|exact Hnodup].
    rewrite <- Hattempts. apply fmap_submseteq, failedFirst_submseteq. }
  assert (NoDup (file <$> results)) as HndR
    by (change (NoDup (map file results)); by rewrite Hfiles).
  assert (∀ f d a, Settled 5 f d a ∈ trace st →
                   resultsFor f results = [outcome f a]) as Hone.
  { intros f d a Hin. unfold resultsFor.
    apply (filter_one file); [done| |].
    - rewrite Hresults. unfold retryOutcomes. apply list_elem_of_omap.
      exists (Settled 5 f d a). split; [done|]. simpl.
      rewrite ?decide_True by done.
      rewrite Forall_forall in Hquiet. specialize (Hquiet _ Hin). simpl in Hquiet.
      by rewrite Hquiet.
    - intros y. rewrite file_outcome. apply String.eqb_eq. }
  intros f. split_and!;
    [intros d Hin; exact (Hone f d None Hin)
    |intros d e Hin; exact (Hone f d (Some e) Hin)|].
  intros b d Hb Hin. apply filter_none. intros y Hy.
  apply String.eqb_neq. intros <-.
  assert (file y ∈ (failedFirst (trace st)).*1) as Hf
    by (rewrite <- Hfiles; by apply (list_elem_of_fmap_2 file)).
  apply list_elem_of_fmap in Hf as ([f' d'] & Hf' & Hfail). simpl in Hf'. subst f'.
  apply elem_of_failedFirst in Hfail as (b' & e & Hb' & _ & Hin').
  assert ((file y, d, None) = (file y, d', Some e)) as Habs; [|done].
  apply (NoDup_fmap_eq (fun a => a.1.1) (mainAttempts (trace st))); [done| | |done].
  - apply elem_of_mainAttempts. eauto.
  - apply elem_of_mainAttempts. eauto.
Qed.

(** C7, as the code has it. A file that [walk] found and that the
    allow-list of extensions or the ignore rules exclude makes no task of its
    own. The run is the run on the files without it. Every task and every
    upload of the run, in the batches of the main pass and in the retry
    batch, is for an allowed file, which the excluded one is not, or for the
    artifact that [convertFieldsJs] makes of the [fields.js] of a module
    folder among the allowed files; so no event is for the path of the
    excluded file unless such an artifact is written to that very path. *)
Theorem excluded_files_make_no_task files f w :
  isAllowedExtension f = false ∨ createIgnoreFilter f = false →
  uploadFiles files w
  = uploadFiles (List.filter (fun g => negb (String.eqb g f)) files) w ∧
  (∀ ev, ev ∈ trace (uploadFiles files w).2 →
         (fileOf ev ∈ allowedFiles files ∧ fileOf ev ≠ f) ∨
         (∃ js, js ∈ allowedFiles files ∧ js ≠ f ∧ inModuleFolder js = true ∧
                fileName js = "fields.js" ∧ convertFieldsJs js = inr (fileOf ev))) ∧
  ((∀ js, js ∈ allowedFiles files → inModuleFolder js = true →
          fileName js = "fields.js" → convertFieldsJs js ≠ inr f) →
   ∀ ev, ev ∈ trace (uploadFiles files w).2 → fileOf ev ≠ f).
Proof.
  intros Hout.
  assert (f ∉ allowedFiles files) as Hnot.
  { rewrite elem_of_allowedFiles. intros (_ & Ha & Hi). destruct Hout; congruence. }
  assert (∀ ev, ev ∈ trace (uploadFiles files w).2 →
            fileOf ev ∈ allowedFiles files ∨
            ∃ js, js ∈ allowedFiles files ∧ inModuleFolder js = true ∧
                  fileName js = "fields.js" ∧ convertFieldsJs js = inr (fileOf ev))
    as Horigin.
  { intros ev Hev.
    destruct (getFilesByType (allowedFiles files)) as [e|filesByType] eqn:Hsort.
    - destruct (run_cases accountId src dest options files w)
        as [(e' & _ & Hrun)|[(c & r & st & Hc & _)|(c & e' & st & Hc & _)]];
        [|congruence..].
      rewrite Hrun in Hev. by apply elem_of_nil in Hev.
    - pose proof (run_among accountId src dest options files w _ ev Hsort Hev) as Hin.
      unfold getFilesByType in Hsort.
      destruct (sortFiles noFiles (allowedFiles files)) as [e|b] eqn:Hb; [done|].
      injection Hsort as <-.
      destruct (sortFiles_origin _ _ _ _ Hb Hin) as [Hno|[Hin'|Hjs]]; [|by left|by right].
      by apply elem_of_nil in Hno. }
  split_and!.
  - apply uploadFiles_ext. rewrite allowedFiles_filter. unfold getFilesByType.
    rewrite sortFiles_filter; [done|].
    intros g Hg Hkeep. apply negb_false_iff, String.eqb_eq in Hkeep. by subst g.
  - intros ev Hev. destruct (Horigin ev Hev) as [Hin|(js & Hjs & Hrest)].
    + left. split; [done|]. by intros <-.
    + right. exists js. split_and!; [done| |apply Hrest..]. by intros ->.
  - intros Hfresh ev Hev <-.
    destruct (Horigin ev Hev) as [Hin|(js & Hjs & Hm & Hn & Hc)]; [done|].
    by apply (Hfresh js).
Qed.

(** C10. Whether a [fields.json] of a module folder is left out is decided
    by the listing of its directory on disk. When the listing has a
    [fields.js] and the allow-list or the ignore rules exclude the path [js]
    of that file, the run is the run on the files without [js] and without the
    [fields.json]: the one is not converted and the other is not uploaded. *)
Theorem static_fields_dropped_for_sibling_on_disk files js json w :
  isAllowedExtension js = false ∨ createIgnoreFilter js = false →
  inModuleFolder json = true → fileName json = "fields.json" →
  getExt json = "json" →
  includes "fields.js" (siblings json) = true →
  uploadFiles files w
  = uploadFiles (List.filter (fun g => negb (String.eqb g js) && negb (String.eqb g json))
                             files) w ∧
  getFilesByType (allowedFiles files)
  = getFilesByType (List.filter (fun g => negb (String.eqb g json)) (allowedFiles files)) ∧
  js ∉ allowedFiles files.
Proof.
  intros Hout Hin Hname Hext Hsib.
  assert (js ∉ allowedFiles files) as Hnot.
  { rewrite elem_of_allowedFiles. intros (_ & Ha & Hi). destruct Hout; congruence. }
  split_and!; [|
    |done].
  - apply uploadFiles_ext. rewrite allowedFiles_filter. unfold getFilesByType.
    rewrite sortFiles_filter; [done|].
    intros g Hg Hkeep b. apply andb_false_iff in Hkeep as [Hkeep|Hkeep];
      apply negb_false_iff, String.eqb_eq in Hkeep; subst g; [done|].
    by apply sortFile_static_dropped.
  - unfold getFilesByType. rewrite sortFiles_filter; [done|].
    intros g Hg Hkeep b. apply negb_false_iff, String.eqb_eq in Hkeep. subst g.
    by apply sortFile_static_dropped.
Qed.

(** C4, as the code has it. Every allowed file makes at most one task of
    the main pass: the [fields.js] of a module folder makes one for the
    artifact of its conversion, a JSON file of a module folder that the
    classification leaves out ([leftOut]) makes none, and every other file
    makes one for itself. The tasks of the main pass are those of the first
    [k] arrays, all five when the run resolves. Every retry is for a task of
    the main pass, each task is retried at most once, and there is no pass
    after the retries. *)
Theorem each_file_one_task_at_most_one_retry files w :
  let run := uploadFiles files w in
  (∀ f, length (placed f) ≤ 1) ∧
  (∀ filesByType, getFilesByType (allowedFiles files) = inr filesByType →
     (∀ f, f ∈ allowedFiles files → (placed f = [] ↔ leftOut f = true)) ∧
     (∀ f, f ∈ allowedFiles files →
           if inModuleFolder f && String.eqb (fileName f) "fields.js"
           then ∃ converted, convertFieldsJs f = inr converted ∧ placed f = [converted]
           else if leftOut f then placed f = [] else placed f = [f]) ∧
     concat filesByType ≡ₚ flat_map placed (allowedFiles files) ∧
     (∃ k, k ≤ 5 ∧
           mainTasks (trace run.2) = entriesOf (concat (take k filesByType))) ∧
     (∀ results, run.1 = inr results →
                 mainTasks (trace run.2) = entriesOf (concat filesByType)) ∧
     submittedIn 5 (trace run.2) ⊆+ mainTasks (trace run.2) ∧
     (∀ ev, ev ∈ trace run.2 → batchOf ev ≤ 5)).
Proof.
  intros run. subst run. split; [apply placed_length|].
  intros filesByType Hsort.
  assert (∀ l, concat (map entriesOf l) = entriesOf (concat l)) as Hconcat.
  { intros l. symmetry. apply concat_map. }
  pose proof (getFilesByType_length _ _ Hsort) as Hlen.
  split_and!.
  - intros f Hf. rewrite placed_nil. split; [|by left].
    intros [?|[e He]]; [done|].
    unfold getFilesByType in Hsort.
    destruct (sortFiles noFiles (allowedFiles files)) as [|b] eqn:Hb; [done|].
    destruct (sortFiles_each _ _ _ f Hb Hf) as [d Hd]. congruence.
  - intros f Hf. rewrite (placed_cases f).
    destruct (inModuleFolder f && String.eqb (fileName f) "fields.js") eqn:Hjs;
      [|by destruct (leftOut f)].
    apply andb_true_iff in Hjs as [Hmod Hname%String.eqb_eq].
    destruct (convertFieldsJs f) as [e|converted] eqn:Hconv; [|eauto].
    unfold getFilesByType in Hsort.
    destruct (sortFiles noFiles (allowedFiles files)) as [|b] eqn:Hb; [done|].
    destruct (sortFiles_each _ _ _ f Hb Hf) as [d Hd].
    rewrite (proj2 (sortFile_error noFiles f e)) in Hd; done.
  - unfold getFilesByType in Hsort.
    destruct (sortFiles noFiles (allowedFiles files)) as [|b] eqn:Hb; [done|].
    injection Hsort as <-. by rewrite (sortFiles_placed _ _ _ Hb).
  - destruct (run_cases accountId src dest options files w)
      as [(e & He & _)|[(c & r & st & Hc & Hrun & H)|(c & e & st & Hc & Hrun & H)]];
      [congruence|..]; rewrite Hrun; simpl; assert (c = filesByType) as -> by congruence.
    + exists 5. split; [done|].
      rewrite (finished_tasks _ _ _ _ _ H), Hconcat. by rewrite take_ge by lia.
    + destruct (halted_tasks _ _ _ _ _ H) as (k & Hk & Htasks & _).
      exists k. split; [lia|]. by rewrite Htasks, Hconcat.
  - intros results Hres.
    destruct (run_cases accountId src dest options files w)
      as [(e & He & _)|[(c & r & st & Hc & Hrun & H)|(c & e & st & Hc & Hrun & H)]];
      [congruence|..]; rewrite Hrun in *; simpl in *; [|done].
    assert (c = filesByType) as -> by congruence.
    by rewrite (finished_tasks _ _ _ _ _ H), Hconcat.
  - destruct (run_cases accountId src dest options files w)
      as [(e & He & _)|[(c & r & st & Hc & Hrun & H)|(c & e & st & Hc & Hrun & H)]];
      [congruence|..]; rewrite Hrun; simpl.
    + rewrite (finished_retried _ _ _ _ _ H), <- (finished_attempts _ _ _ _ _ H).
      apply failedFirst_submseteq.
    + apply H.
  - destruct (run_cases accountId src dest options files w)
      as [(e & He & _)|[(c & r & st & Hc & Hrun & H)|(c & e & st & Hc & Hrun & H)]];
      [congruence|..]; rewrite Hrun; simpl; apply H.
Qed.

End Properties.

(** * Runs on the demo host *)

Section SampleRuns.
#[local] Existing Instance Demo.host.

Ltac found :=
  apply list_elem_of_In; vm_compute; repeat first [left; reflexivity | right].
Ltac computed := vm_compute; reflexivity.

(** The run on [shop]: [main.css] is rejected once and goes through when it
    is retried, [index.html] is rejected both times, [logo.png] goes through
    at once. *)
Lemma shop_outcomes :
  let run := Demo.run "shop" "remote" in
  let results := [outcome "shop/main.css" None; outcome "shop/index.html" (Some "503")] in
  run.1 = inr results ∧
  NoDup (mainTasks (trace run.2)).*1 ∧
  map file results = (failedFirst (trace run.2)).*1 ∧
  resultsFor "shop/main.css" results = [outcome "shop/main.css" None] ∧
  resultsFor "shop/index.html" results = [outcome "shop/index.html" (Some "503")] ∧
  resultsFor "shop/logo.png" results = [].
Proof.
  intros run results.
  assert (run.1 = inr results) as Hrun by computed.
  assert (NoDup (mainTasks (trace run.2)).*1) as Hnodup
    by (apply (bool_decide_unpack (NoDup (mainTasks (trace run.2)).*1));
        vm_compute; exact I).
  destruct (outcomes_are_the_retried_failures (host := Demo.host)
              1%Z "shop" "remote" () [] results Hrun)
    as (Hfiles & _ & _ & Hper).
  destruct (Hper Hnodup "shop/main.css") as (Hok & _ & _).
  destruct (Hper Hnodup "shop/index.html") as (_ & Hko & _).
  destruct (Hper Hnodup "shop/logo.png") as (_ & _ & Hfirst).
  split_and!; [done|done|done| | |].
  - apply (Hok "remote/main.css"). found.
  - apply (Hko "remote/index.html" "503"). found.
  - apply (Hfirst 0 "remote/logo.png"); [lia|found].
Defined.

(** The run on [site]: the retry of [a.js] enters the pool after the task of
    batch 2 has been resolved. *)
Lemma site_retry_after_batches :
  let tr := trace (Demo.run "site" "remote").2 in
  tr = take 8 tr ++ Submitted 5 "site/a.js" "remote/a.js" :: drop 9 tr ∧
  submittedIn 2 tr ≡ₚ resolvedIn 2 (take 8 tr) ∧
  submittedIn 2 tr = [("site/a.js", "remote/a.js")].
Proof.
  intros tr.
  destruct (batches_wait_for_each_other (host := Demo.host) 1%Z "site" "remote" () [])
    as (Hbarrier & _).
  assert (tr = take 8 tr ++ Submitted 5 "site/a.js" "remote/a.js" :: drop 9 tr) as Hsplit
    by computed.
  split_and!; [done| |computed].
  apply (Hbarrier _ 5 "site/a.js" "remote/a.js" _ 2 Hsplit). lia.
Defined.

(** The run on [vault] is rejected with the fatal error of [secret.css], and
    the run on [draft] with the error of the conversion, before any upload. *)
Lemma vault_and_draft_are_rejected :
  let vault := Demo.run "vault" "remote" in
  let draft := Demo.run "draft" "remote" in
  Settled 2 "vault/secret.css" "remote/secret.css" (Some "403") ∈ trace vault.2 ∧
  isFatalError "403" = true ∧
  vault.1 = inl "403" ∧
  getFilesByType (allowedFiles (walk "draft")) = inl "SyntaxError" ∧
  draft.1 = inl "SyntaxError" ∧ trace draft.2 = [].
Proof.
  intros vault draft.
  destruct (fatal_errors_escape_transient_do_not (host := Demo.host)
              1%Z "vault" "remote" () []) as (_ & _ & Hfatal & _).
  destruct (fatal_errors_escape_transient_do_not (host := Demo.host)
              1%Z "draft" "remote" () []) as (_ & Hconv & _).
  assert (Settled 2 "vault/secret.css" "remote/secret.css" (Some "403") ∈ trace vault.2)
    as Hin by found.
  assert (getFilesByType (allowedFiles (walk "draft")) = inl "SyntaxError") as Hsort
    by computed.
  destruct (Hconv "SyntaxError" Hsort) as [Hdraft Hnone].
  split_and!; [done|done| |done|done|done].
  by apply (Hfatal 2 "vault/secret.css" "remote/secret.css" "403").
Defined.


(** In [shop] the style sheet of [cart.module] is not among the style
    sheets. *)
Lemma shop_module_css :
  getFilesByType (allowedFiles (walk "shop"))
  = inr [["shop/logo.png"];
         ["shop/cart.module/meta.json"; "shop/cart.module/fields.json";
          "shop/cart.module/module.css"];
         ["shop/main.css"]; ["shop/index.html"]; ["shop/config.json"]] ∧
  "cart.module" ∈ splitLocalPath "shop/cart.module/module.css" ∧
  "shop/cart.module/module.css" ∉ ["shop/main.css"].
Proof.
  assert (getFilesByType (allowedFiles (walk "shop"))
          = inr [["shop/logo.png"];
                 ["shop/cart.module/meta.json"; "shop/cart.module/fields.json";
                  "shop/cart.module/module.css"];
                 ["shop/main.css"]; ["shop/index.html"]; ["shop/config.json"]])
    as Hsort by computed.
  assert ("cart.module" ∈ splitLocalPath "shop/cart.module/module.css") as Hpart
    by found.
  split_and!; [done|done|].
  apply (module_folder_wins (host := Demo.host) _ _ _ _ _ _
           "shop/cart.module/module.css" Hsort).
  exists "cart.module". split; [done|computed].
Defined.

(** In [shop] the ignore rules exclude [node_modules/x.js]: the run is the
    run without it and nothing is uploaded for it. *)
Lemma shop_ignored_file :
  let f := "shop/node_modules/x.js" in
  f ∈ walk "shop" ∧ createIgnoreFilter f = false ∧
  uploadFiles 1%Z "shop" "remote" () (walk "shop") []
  = uploadFiles 1%Z "shop" "remote" ()
      (List.filter (fun g => negb (String.eqb g f)) (walk "shop")) [] ∧
  ∀ ev, ev ∈ trace (uploadFiles 1%Z "shop" "remote" () (walk "shop") []).2 →
        fileOf ev ≠ f.
Proof.
  intros f.
  assert (createIgnoreFilter f = false) as Hignored by computed.
  destruct (excluded_files_make_no_task (host := Demo.host)
              1%Z "shop" "remote" () (walk "shop") f [] (or_intror Hignored))
    as (Hsame & _ & Hnone).
  split_and!; [found|done|done|].
  apply Hnone. intros js Hjs _ Hname.
  apply list_elem_of_In in Hjs. vm_compute in Hjs.
  repeat (destruct Hjs as [<-|Hjs]; [vm_compute in Hname; discriminate|]).
  destruct Hjs.
Defined.

(** A run on a host that writes the paths of Windows: the file
    [C:\site\a.js] of the source [C:\site] is joined to [remote] with a
    backslash, and the destination of its task is [remote/a.js]. *)
Lemma windows_destination :
  let f := "C:\site\a.js" in
  let st := (uploadFiles 1%Z "C:\site" "remote" () [f] []).2 in
  Submitted 2 f "remote/a.js" ∈ trace st ∧
  f = "C:\site" +:+ "\a.js" ∧
  join "remote" "\a.js" = "remote\a.js" ∧
  "remote/a.js" = convertToUnixPath (join "remote" "\a.js") ∧
  ∀ i, String.get i "remote/a.js" ≠ Some backslash.
Proof.
  intros f st.
  assert (Submitted 2 f "remote/a.js" ∈ trace st) as Hin by found.
  destruct (destination_of_every_task (host := Demo.host)
              1%Z "C:\site" "remote" () [f] [] 2 f "remote/a.js" (or_introl Hin))
    as (_ & Hrest & Hnone & _).
  split_and!; [done|done|done| |done]. by apply Hrest.
Defined.

(** In [shop] the ignore rules exclude the [fields.js] of [legacy.module],
    which is on disk next to a [fields.json]: the run is the run without the
    two, and neither is among the allowed files that are classified. *)
Lemma shop_legacy_fields :
  let js := "shop/legacy.module/fields.js" in
  let json := "shop/legacy.module/fields.json" in
  createIgnoreFilter js = false ∧
  json ∈ allowedFiles (walk "shop") ∧
  includes "fields.js" (siblings json) = true ∧
  uploadFiles 1%Z "shop" "remote" () (walk "shop") []
  = uploadFiles 1%Z "shop" "remote" ()
      (List.filter (fun g => negb (String.eqb g js) && negb (String.eqb g json))
                   (walk "shop")) [] ∧
  js ∉ allowedFiles (walk "shop").
Proof.
  intros js json.
  assert (createIgnoreFilter js = false) as Hignored by computed.
  assert (includes "fields.js" (siblings json) = true) as Hsibling by computed.
  destruct (static_fields_dropped_for_sibling_on_disk (host := Demo.host)
              1%Z "shop" "remote" () (walk "shop") js json []
              (or_intror Hignored) ltac:(computed) ltac:(computed) ltac:(computed)
              Hsibling) as (Hsame & _ & Hnot).
  split_and!; [done|found|done|done|done].
Defined.

(** In the run on [shop] the tasks of the main pass are those of the five
    arrays, and the two retries are for two of them. *)
Lemma shop_tasks :
  let run := Demo.run "shop" "remote" in
  let filesByType :=
    [["shop/logo.png"];
     ["shop/cart.module/meta.json"; "shop/cart.module/fields.json";
      "shop/cart.module/module.css"];
     ["shop/main.css"]; ["shop/index.html"]; ["shop/config.json"]] in
  getFilesByType (allowedFiles (walk "shop")) = inr filesByType ∧
  run.1 = inr [outcome "shop/main.css" None; outcome "shop/index.html" (Some "503")] ∧
  mainTasks (trace run.2) = entriesOf "shop" "remote" (concat filesByType) ∧
  submittedIn 5 (trace run.2) ⊆+ mainTasks (trace run.2) ∧
  placed "shop/cart.module/data.json" = [] ∧
  placed "shop/cart.module/module.css" = ["shop/cart.module/module.css"].
Proof.
  intros run filesByType.
  assert (getFilesByType (allowedFiles (walk "shop")) = inr filesByType) as Hsort
    by computed.
  assert (run.1 = inr [outcome "shop/main.css" None;
                       outcome "shop/index.html" (Some "503")]) as Hrun by computed.
  destruct (each_file_one_task_at_most_one_retry (host := Demo.host)
              1%Z "shop" "remote" () (walk "shop") []) as (_ & Hrest).
  destruct (Hrest filesByType Hsort) as (Hleft & Hself & _ & _ & Hall & Hretry & _).
  split_and!; [done|done| |done| |].
  - by apply (Hall _ Hrun).
  - apply Hleft; [found|computed].
  - assert ("shop/cart.module/module.css" ∈ allowedFiles (walk "shop")) as Hin by found.
    exact (Hself _ Hin).
Defined.

(** C7, as it is stated, fails on the run on [site] of the host that ignores
    the [fields.json] of [b.module]: the artifact of the [fields.js] next to
    it is written to the path of the ignored file, and a task of batch 1
    uploads that path. *)
Lemma ignored_fields_json_is_overwritten :
  ¬ noTaskForExcluded (host := Demo.hsignore) (@walk Demo.hsignore "site")
      (uploadFolder (host := Demo.hsignore) 1%Z "site" "remote" () []).2.
Proof.
  intros Hnone.
  apply (Hnone "site/b.module/fields.json"
           ltac:(found) (or_intror eq_refl)
           (Submitted 1 "site/b.module/fields.json" "remote/b.module/fields.json"));
    [found|done].
Qed.

(** C4, as it is stated, fails on the run on [shop]: [cart.module/data.json]
    is an allowed file and no task is made for it. *)
Lemma dropped_module_json_has_no_task :
  ¬ oneTaskEach (walk "shop") (Demo.run "shop" "remote").2.
Proof.
  intros Hone.
  assert ("shop/cart.module/data.json" ∈ allowedFiles (walk "shop")) as Hin by found.
  specialize (Hone _ Hin). vm_compute in Hone. discriminate.
Qed.

End SampleRuns.

(** * More properties *)

(** ** The uploads of a run *)

Section Attempts.
Context `{host : Host}.
Variables (accountId : Z) (src dest : string) (options : Options).

Local Abbreviation played := (played accountId options).
Local Abbreviation uploading := (uploading accountId options).
Local Abbreviation Orderly := (Orderly accountId options).
Local Abbreviation between := (between accountId options).

Lemma played_app w tr1 w1 tr2 w2 :
  played w tr1 w1 → played w1 tr2 w2 → played w (tr1 ++ tr2) w2.
Proof.
  revert w. induction tr1 as [|ev tr1 IH]; intros w; simpl.
  - by intros ->.
  - destruct ev as [b f d|b f d a]; [apply IH|].
    intros [Ha Hrest] H2. split; [done|]. by apply IH.
Qed.

Lemma played_submitted w b entries : played w (map (submittedEvent b) entries) w.
Proof. induction entries as [|entry entries IH]; [done|]. apply IH. Qed.

Lemma uploadFile_uploading b f :
  uploading b (f, destPathOf src dest f) (uploadFile accountId src dest options b f).
Proof.
  intros s r s'. unfold uploadFile.
  destruct (upload _ _ _ _ _) as [[e|] w] eqn:Hup; simpl.
  - destruct (isFatalError e); intros [= <- <-]; by exists (Some e).
  - intros [= <- <-]. by exists None.
Qed.

Lemma retryFile_uploading entry :
  uploading 5 entry (retryFile accountId options entry).
Proof.
  destruct entry as [f d]. intros s r s'. unfold retryFile.
  destruct (upload _ _ _ _ _) as [[e|] w] eqn:Hup; simpl.
  - destruct (isFatalError e); intros [= <- <-]; by exists (Some e).
  - intros [= <- <-]. by exists None.
Qed.

Lemma omap_submseteq {A B} (f : A → option B) (l k : list A) :
  l ⊆+ k → omap f l ⊆+ omap f k.
Proof.
  induction 1 as [|x l k _ IH|x y l|x l k _ IH|l k1 k2 _ IH1 _ IH2]; csimpl.
  - done.
  - destruct (f x); [by apply submseteq_skip|done].
  - destruct (f x), (f y); try done. apply Permutation_submseteq, perm_swap.
  - destruct (f x); [by apply submseteq_cons|done].
  - by etrans.
Qed.

(** Entries taken at distinct positions are a part of the entries. *)
Lemma taken_once (entries : list (string * string)) (positions : list nat)
    (atts : list (string * string * option exn)) :
  NoDup positions →
  Forall2 (fun i a => entries !! i = Some a.1) positions atts →
  atts.*1 ⊆+ entries.
Proof.
  intros Hnd HF.
  assert (atts.*1 = omap (fun i => entries !! i) positions) as ->.
  { clear Hnd. induction HF as [|i a positions atts Hia _ IH]; [done|].
    csimpl. rewrite Hia. csimpl. by f_equal. }
  assert (positions ⊆+ seq 0 (length entries)) as Hsub; last first.
  { apply (omap_submseteq (fun i => entries !! i)) in Hsub.
    by rewrite omap_lookup_seq in Hsub. }
  apply NoDup_submseteq; [done|]. intros i Hi. apply elem_of_seq.
  apply list_elem_of_lookup_1 in Hi as [k Hk].
  destruct (Forall2_lookup_l _ _ _ _ _ HF Hk) as (a & _ & Ha).
  apply lookup_lt_Some in Ha. lia.
Qed.

(** What a batch leaves, resolved or rejected: one event for each task that
    settled, no task twice, and the uploads the host saw. *)
Lemma addAll_attempts {V} b (entries : list (string * string))
    (tasks : list (Task V)) st :
  Forall2 (uploading b) entries tasks →
  ∃ atts, trace (addAll tasks st).2 = trace st ++ map (settledEvent b) atts ∧
          atts.*1 ⊆+ entries ∧
          played (world st) (map (settledEvent b) atts) (world (addAll tasks st).2).
Proof.
  intros Htasks.
  set (I := fun (done : list (nat * V)) (s : State) =>
    ∃ atts, trace s = trace st ++ map (settledEvent b) atts ∧
            Forall2 (fun i a => entries !! i = Some a.1) done.*1 atts ∧
            NoDup done.*1 ∧
            played (world st) (map (settledEvent b) atts) (world s)).
  assert (∀ done s i t r s',
             I done s → tasks !! i = Some t → i ∉ done.*1 → t s = (r, s') →
             ∃ atts, trace s' = trace st ++ map (settledEvent b) atts ∧
                     Forall2 (fun i a => entries !! i = Some a.1) (done.*1 ++ [i]) atts ∧
                     NoDup (done.*1 ++ [i]) ∧
                     played (world st) (map (settledEvent b) atts) (world s'))
    as Hrun.
  { intros done s i t r s' (atts & Htr & HF & Hnd & Hpl) Ht Hfresh Hts.
    destruct (Forall2_lookup_r _ _ _ _ _ Htasks Ht) as (entry & Hentry & Hup).
    destruct (Hup _ _ _ Hts) as (a & Hanswer & Htr').
    exists (atts ++ [(entry, a)]). split_and!.
    - by rewrite Htr', Htr, map_app, <- app_assoc.
    - apply Forall2_app; [done|]. by constructor.
    - apply NoDup_app. split_and!; [done| |apply NoDup_singleton].
      intros j Hj ->%list_elem_of_singleton. done.
    - rewrite map_app. eapply played_app; [done|]. simpl. by rewrite Hanswer. }
  assert (I [] st) as Hinit.
  { exists []. rewrite app_nil_r. split_and!; [done|constructor|constructor|done]. }
  assert (∀ done s i t v s',
             I done s → tasks !! i = Some t → i ∉ done.*1 →
             t s = (Fulfilled v, s') → I (done ++ [(i, v)]) s') as Hstep.
  { intros done s i t v s' HI Ht Hfresh Hts. unfold I. rewrite fmap_app. simpl.
    by eapply Hrun. }
  pose proof (addAll_rule tasks I st Hstep Hinit) as Hrule.
  destruct (addAll tasks st) as [[e|vs] st']; simpl.
  - destruct Hrule as (done & s & i & t & HI & Ht & Hfresh & Hts).
    destruct (Hrun _ _ _ _ _ _ HI Ht Hfresh Hts) as (atts & Htr & HF & Hnd & Hpl).
    exists atts. split_and!; [done| |done]. by eapply taken_once.
  - destruct Hrule as (done & (atts & Htr & HF & Hnd & Hpl) & _).
    exists atts. split_and!; [done| |done]. by eapply taken_once.
Qed.

Lemma constant_sorted (b : nat) (l : list nat) :
  Forall (fun x => x = b) l → StronglySorted le l.
Proof.
  induction 1 as [|x l -> Hl IH]; constructor; [done|].
  eapply Forall_impl; [done|]. intros y ->. done.
Qed.

Lemma segment_sorted i tr entries atts :
  (∀ ev, ev ∈ tr → batchOf ev < i) →
  StronglySorted le (batchOf <$> tr) →
  StronglySorted le
    (batchOf <$> tr ++ map (submittedEvent i) entries ++ map (settledEvent i) atts).
Proof.
  intros Hold Hsorted. rewrite fmap_app. apply StronglySorted_app. split_and!.
  - intros x y (ev & -> & Hev)%list_elem_of_fmap (ev' & -> & Hev')%list_elem_of_fmap.
    rewrite (batchOf_segment i _ _ ev' Hev'). specialize (Hold ev Hev). lia.
  - done.
  - apply (constant_sorted i), Forall_forall.
    intros x (ev & -> & Hev)%list_elem_of_fmap. by eapply batchOf_segment.
Qed.

Lemma between_batch w0 i fs st :
  i < 5 → between w0 i st →
  between w0 (S i)
    (addAll (map (uploadFile accountId src dest options i) fs)
            (submitAll i (entriesOf src dest fs) st)).2.
Proof.
  intros Hi (Hold & Hsorted & Honce & Hplayed).
  destruct (addAll_attempts i (entriesOf src dest fs)
              (map (uploadFile accountId src dest options i) fs)
              (submitAll i (entriesOf src dest fs) st))
    as (atts & Htr & Hsub & Hpl).
  { unfold entriesOf. apply Forall2_fmap, Forall2_same_length_lookup.
    split; [done|]. intros k f g Hf Hg. simplify_eq. apply uploadFile_uploading. }
  simpl in Htr, Hpl. rewrite <- app_assoc in Htr.
  unfold between. rewrite Htr. split_and!.
  - intros ev [Hev|Hev]%elem_of_app.
    + specialize (Hold ev Hev). lia.
    + rewrite (batchOf_segment i _ _ ev Hev). lia.
  - by apply segment_sorted.
  - rewrite !mainAttempts_app, !mainTasks_app, mainAttempts_submitted,
      mainAttempts_settled, mainTasks_submitted, mainTasks_settled.
    rewrite !decide_True by done. simpl. rewrite app_nil_r, fmap_app.
    by apply submseteq_app.
  - eapply played_app; [done|]. eapply played_app; [apply played_submitted|done].
Qed.

Lemma between_batches w0 cats i st :
  i + length cats ≤ 5 → between w0 i st →
  ∃ k, k ≤ 5 ∧ between w0 k (uploadBatches accountId src dest options i cats st).2.
Proof.
  revert i st. induction cats as [|fs cats IH]; intros i st Hlen Hst; simpl in Hlen.
  - exists i. split; [lia|done].
  - rewrite uploadBatches_cons.
    pose proof (between_batch w0 i fs st ltac:(lia) Hst) as Hnext.
    destruct (addAll _ _) as [[e|vs] st']; simpl in *.
    + exists (S i). split; [lia|done].
    + apply IH; [lia|done].
Qed.

(** Every run is orderly. *)
Lemma run_orderly files w :
  Orderly w (uploadFiles accountId src dest options files w).2.
Proof.
  unfold uploadFiles.
  set (st0 := {| world := w; failures := []; trace := [] |}).
  assert (between w 0 st0) as H0.
  { split_and!; simpl; [by intros ev ?%elem_of_nil|constructor|done|done]. }
  assert (∀ k st, k ≤ 5 → between w k st → Orderly w st) as Hstop.
  { intros k st Hk (Hold & Hsorted & Honce & Hplayed). split; [done|done| |done].
    rewrite retries_other; [apply submseteq_nil_l|].
    intros ev Hev. specialize (Hold ev Hev). lia. }
  destruct (getFilesByType (allowedFiles files)) as [e|filesByType] eqn:Hsort.
  { apply (Hstop 0); [lia|done]. }
  pose proof (getFilesByType_length _ _ Hsort) as Hlen.
  destruct (between_batches w filesByType 0 st0 ltac:(lia) H0) as (k & Hk & Hmain).
  destruct (uploadBatches _ _ _ _ _ _ _) as [[e|[]] st1]; simpl in Hmain.
  { by apply (Hstop k). }
  destruct Hmain as (Hold & Hsorted & Honce & Hplayed).
  destruct (addAll_attempts 5 (failures st1)
              (map (retryFile accountId options) (failures st1))
              (submitAll 5 (failures st1) st1))
    as (atts & Htr & Hsub & Hpl).
  { apply Forall2_fmap_r, Forall_Forall2_diag, Forall_forall.
    intros entry _. apply retryFile_uploading. }
  simpl in Htr, Hpl. rewrite <- app_assoc in Htr.
  assert (∀ ev, ev ∈ trace st1 → batchOf ev < 5) as Hold5
    by (intros ev Hev; specialize (Hold ev Hev); lia).
  split; rewrite Htr.
  - by apply segment_sorted.
  - rewrite !mainAttempts_app, !mainTasks_app, mainAttempts_submitted,
      mainAttempts_settled, mainTasks_submitted, mainTasks_settled.
    rewrite !decide_False by lia. by rewrite !app_nil_r.
  - rewrite !retries_app, retries_submitted, retries_settled, !submittedIn_app,
      submittedIn_settled, submittedIn_submitted, app_nil_r.
    rewrite retries_other by (intros ev Hev; specialize (Hold5 ev Hev); lia).
    rewrite submittedIn_other by (intros ev Hev; specialize (Hold5 ev Hev); lia).
    done.
  - eapply played_app; [done|]. eapply played_app; [apply played_submitted|done].
Qed.

End Attempts.

(** ** Runs *)

Section MoreRuns.
Context `{host : Host}.
Variables (accountId : Z) (src dest : string) (options : Options).

Local Abbreviation run := (uploadFiles accountId src dest options).

(** X1. The events of a run are in the order of the batches: once a task
    of a batch has entered the pool or settled, nothing happens for an
    earlier batch. *)
Theorem events_in_batch_order files w pre ev post ev' :
  trace (run files w).2 = pre ++ ev :: post → ev' ∈ post →
  batchOf ev ≤ batchOf ev'.
Proof.
  intros Hsplit Hin.
  pose proof (orderly_sorted _ _ _ _ (run_orderly accountId src dest options files w))
    as Hsorted.
  rewrite Hsplit, fmap_app, fmap_cons in Hsorted.
  apply StronglySorted_app_1_r, StronglySorted_cons in Hsorted as [Hall _].
  rewrite Forall_forall in Hall. apply Hall. by apply list_elem_of_fmap_2.
Qed.

(** X2. A run that is rejected has uploaded nothing, when the classification
    threw, or ends with the upload that was rejected with the fatal error:
    every event before it is of the same or an earlier batch and is not a
    rejection. After a fatal error in the main pass nothing is retried. *)
Theorem fatal_error_ends_the_run files w e :
  (run files w).1 = inl e →
  (getFilesByType (allowedFiles files) = inl e ∧ trace (run files w).2 = []) ∨
  ∃ before b f d,
    trace (run files w).2 = before ++ [Settled b f d (Some e)] ∧
    isFatalError e = true ∧
    (∀ ev, ev ∈ before → quiet ev ∧ batchOf ev ≤ b) ∧
    (b < 5 → retries (trace (run files w).2) = [] ∧
             submittedIn 5 (trace (run files w).2) = []).
Proof.
  intros Hrun.
  pose proof (orderly_sorted _ _ _ _ (run_orderly accountId src dest options files w))
    as Hsorted.
  destruct (run_cases accountId src dest options files w)
    as [(e' & He' & Heq)|[(c & r & st & _ & Heq & H)|(c & e' & st & _ & Heq & H)]];
    rewrite Heq in *; simpl in *; simplify_eq.
  { left. by split. }
  right. destruct (halted_last _ _ _ _ _ H) as (before & b & f & d & Htr & Hfatal & Hq).
  exists before, b, f, d. rewrite Htr in Hsorted |- *.
  assert (∀ ev, ev ∈ before → batchOf ev ≤ b) as Hle.
  { intros ev Hev. rewrite fmap_app in Hsorted.
    apply (StronglySorted_app_1_elem_of _ _ _ (batchOf ev) b) in Hsorted;
      [done|by apply list_elem_of_fmap_2|by left]. }
  split_and!; [done|done| |].
  - intros ev Hev. split; [|by apply Hle].
    rewrite Forall_forall in Hq. by apply Hq.
  - intros Hb.
    assert (∀ ev, ev ∈ before ++ [Settled b f d (Some e)] → batchOf ev ≠ 5) as Hno.
    { intros ev [Hev|Hev]%elem_of_app.
      - specialize (Hle ev Hev). lia.
      - apply list_elem_of_singleton in Hev as ->. simpl. lia. }
    split; [by apply retries_other|by apply submittedIn_other].
Qed.

(** X3. In every run, resolved or rejected, no task is uploaded twice in a
    pass: the uploads of the main pass are for distinct tasks of the main
    pass, and the uploads of the retry pass for distinct retry tasks. *)
Theorem no_task_uploaded_twice files w :
  (mainAttempts (trace (run files w).2)).*1 ⊆+ mainTasks (trace (run files w).2) ∧
  (retries (trace (run files w).2)).*1 ⊆+ submittedIn 5 (trace (run files w).2).
Proof.
  destruct (run_orderly accountId src dest options files w) as [_ Hmain Hretry _].
  by split.
Qed.

(** X5. An upload of the retry pass is always for a file whose upload in the
    main pass was rejected with a transient error, and goes to the same
    destination. *)
Theorem retries_follow_transient_failures files w f d a :
  Settled 5 f d a ∈ trace (run files w).2 →
  ∃ b e, b < 5 ∧ isFatalError e = false ∧
         Settled b f d (Some e) ∈ trace (run files w).2.
Proof.
  intros Hin.
  assert (Submitted 5 f d ∈ trace (run files w).2) as Hsub.
  { apply elem_of_submittedIn.
    eapply elem_of_submseteq;
      [|apply (orderly_retry _ _ _ _ (run_orderly accountId src dest options files w))].
    apply (list_elem_of_fmap_2 fst _ (f, d, a)). by apply elem_of_retries. }
  destruct (getFilesByType (allowedFiles files)) as [e|filesByType] eqn:Hsort.
  - destruct (run_cases accountId src dest options files w)
      as [(e' & _ & Heq)|[(c & r & st & Hc & _)|(c & e' & st & Hc & _)]];
      [|congruence..].
    rewrite Heq in Hin. by apply elem_of_nil in Hin.
  - destruct (run_submitted accountId src dest options files w _ 5 f d Hsort Hsub)
      as [[? _]|[_ Hfail]]; [lia|].
    apply elem_of_failedFirst in Hfail as (b & e & ? & ? & ?). eauto.
Qed.

End MoreRuns.

(** ** The classification *)

Section MoreClassification.
Context `{host : Host}.

Lemma sortFile_arrays b f b' :
  sortFile b f = inr b' →
  batches b' =
  zip_with app (batches b)
    [List.filter (fun g => arrayOf g =? 0) [f];
     flat_map placed (List.filter inModuleFolder [f]);
     List.filter (fun g => arrayOf g =? 2) [f];
     List.filter (fun g => arrayOf g =? 3) [f];
     List.filter (fun g => arrayOf g =? 4) [f]].
Proof.
  intros Hf. cbn [List.filter]. unfold arrayOf, batches.
  destruct (inModuleFolder f) eqn:Hin; cbn [flat_map]; unfold placed;
    unfold sortFile in *; rewrite Hin in *;
    repeat (case_match; simplify_eq; try done); simpl;
    by rewrite ?app_nil_r, <- ?app_assoc.
Qed.

Lemma sortFiles_arrays b files b' :
  sortFiles b files = inr b' →
  batches b' =
  zip_with app (batches b)
    [List.filter (fun g => arrayOf g =? 0) files;
     flat_map placed (List.filter inModuleFolder files);
     List.filter (fun g => arrayOf g =? 2) files;
     List.filter (fun g => arrayOf g =? 3) files;
     List.filter (fun g => arrayOf g =? 4) files].
Proof.
  revert b. induction files as [|f files IH]; intros b.
  - intros [= <-]. unfold batches. simpl. by rewrite !app_nil_r.
  - cbn [sortFiles]. destruct (sortFile b f) as [e|b1] eqn:Hf; [done|].
    intros Hrest. rewrite (IH _ Hrest), (sortFile_arrays _ _ _ Hf).
    unfold batches. cbn [zip_with]. rewrite <- !app_assoc.
    change (f :: files) with ([f] ++ files).
    by rewrite !List.filter_app, flat_map_app.
Qed.

(** X6. The arrays that [getFilesByType] returns are taken from the list in
    its order: the four arrays that are filled by extension are the files
    outside the module folders that the chain of tests on the extension
    sends there, and the array of the module files is what the callback
    places for each file of a module folder, one after the other. *)
Theorem arrays_keep_the_order files filesByType :
  getFilesByType files = inr filesByType →
  filesByType =
    [List.filter (fun f => arrayOf f =? 0) files;
     flat_map placed (List.filter inModuleFolder files);
     List.filter (fun f => arrayOf f =? 2) files;
     List.filter (fun f => arrayOf f =? 3) files;
     List.filter (fun f => arrayOf f =? 4) files].
Proof.
  unfold getFilesByType.
  destruct (sortFiles noFiles files) as [e|b] eqn:Hsort; [done|]. intros [= <-].
  by rewrite (sortFiles_arrays _ _ _ Hsort).
Qed.

(** X7. Classifying a list in two parts gives the same as classifying it at
    once: the error of the first part that throws, or each array of the
    first part followed by the same array of the second. What the callback
    does with a file does not depend on the files before it. *)
Theorem getFilesByType_app l1 l2 :
  getFilesByType (l1 ++ l2) =
  match getFilesByType l1, getFilesByType l2 with
  | inl e, _ => inl e
  | inr _, inl e => inl e
  | inr first, inr second => inr (zip_with app first second)
  end.
Proof.
  unfold getFilesByType. rewrite sortFiles_app.
  destruct (sortFiles noFiles l1) as [e|b1]; [done|].
  rewrite sortFiles_join. by destruct (sortFiles noFiles l2) as [e|b2].
Qed.

Lemma placed_count files b :
  sortFiles noFiles files = inr b →
  length (flat_map placed files) + length (List.filter leftOut files) = length files.
Proof.
  intros Hsort.
  assert (Forall (fun f => ∃ d, sortFile noFiles f = inr d) files) as Hall.
  { apply Forall_forall. intros f Hf. by eapply sortFiles_each. }
  clear Hsort. induction Hall as [|f files [d Hd] _ IH]; [done|].
  cbn [flat_map List.filter]. rewrite length_app.
  pose proof (placed_length f) as Hle. pose proof (placed_nil f) as Hnil.
  destruct (leftOut f) eqn:Hout.
  - rewrite (proj2 Hnil) by by left. simpl. lia.
  - destruct (placed f) as [|x l] eqn:Hp.
    + destruct (proj1 Hnil eq_refl) as [?|[e He]]; congruence.
    + simpl in *. lia.
Qed.

(** X8. When the classification returns, every file of the list is in
    exactly one place: the arrays hold as many paths as the list has files
    that are not JSON files that the callback leaves out of a module
    folder. *)
Theorem arrays_count files filesByType :
  getFilesByType files = inr filesByType →
  length (concat filesByType) + length (List.filter leftOut files) = length files.
Proof.
  unfold getFilesByType.
  destruct (sortFiles noFiles files) as [e|b] eqn:Hsort; [done|]. intros [= <-].
  rewrite (sortFiles_placed _ _ _ Hsort). simpl.
  by apply placed_count with b.
Qed.

End MoreClassification.

(** ** The outcome of a run *)

Section Outcomes.
Context `{host : Host}.
Variables (accountId : Z) (src dest : string) (options : Options).

Local Abbreviation run := (uploadFiles accountId src dest options).
Local Abbreviation entriesOf := (entriesOf src dest).

Lemma take_concat_length {A} k (l : list (list A)) :
  length (concat (take k l)) ≤ length (concat l).
Proof.
  rewrite <- (take_drop k l) at 2. rewrite concat_app, length_app. lia.
Qed.

(** The tasks of a run of which the classification returned. *)
Lemma run_tasks files w filesByType :
  getFilesByType (allowedFiles files) = inr filesByType →
  (∃ k, mainTasks (trace (run files w).2) = entriesOf (concat (take k filesByType))) ∧
  submittedIn 5 (trace (run files w).2) ⊆+ mainTasks (trace (run files w).2) ∧
  (∀ ev, ev ∈ trace (run files w).2 → batchOf ev ≤ 5).
Proof.
  intros Hsort.
  assert (∀ l, concat (map entriesOf l) = entriesOf (concat l)) as Hconcat.
  { intros l. symmetry. apply concat_map. }
  destruct (run_cases accountId src dest options files w)
    as [(e & He & _)|[(c & r & st & Hc & Hrun & H)|(c & e & st & Hc & Hrun & H)]];
    [congruence|..]; rewrite Hrun; simpl; assert (c = filesByType) as -> by congruence.
  - split_and!; [| |apply H].
    + exists (length filesByType).
      by rewrite (finished_tasks _ _ _ _ _ H), Hconcat, firstn_all.
    + rewrite (finished_retried _ _ _ _ _ H), <- (finished_attempts _ _ _ _ _ H).
      apply failedFirst_submseteq.
  - split_and!; [|apply H..].
    destruct (halted_tasks _ _ _ _ _ H) as (k & _ & Htasks & _).
    exists k. by rewrite Htasks, Hconcat.
Qed.

(** The events of a run are for tasks of the main pass. *)
Lemma run_event_task files w ev :
  ev ∈ trace (run files w).2 →
  ∃ entry, entry ∈ mainTasks (trace (run files w).2).
Proof.
  intros Hev.
  destruct (getFilesByType (allowedFiles files)) as [e|filesByType] eqn:Hsort.
  { destruct (run_cases accountId src dest options files w)
      as [(e' & _ & Heq)|[(c & r & st & Hc & _)|(c & e' & st & Hc & _)]];
      [|congruence..].
    rewrite Heq in Hev. by apply elem_of_nil in Hev. }
  destruct (run_tasks files w _ Hsort) as (_ & Hretry & Hle).
  destruct (run_orderly accountId src dest options files w) as [_ Hmain Hretries _].
  specialize (Hle ev Hev).
  destruct ev as [b f d|b f d a]; simpl in Hle.
  - destruct (decide (b = 5)) as [->|].
    + exists (f, d). eapply elem_of_submseteq; [|exact Hretry].
      by apply elem_of_submittedIn.
    + exists (f, d). apply elem_of_mainTasks. exists b. split; [lia|done].
  - exists (f, d). destruct (decide (b = 5)) as [->|].
    + eapply elem_of_submseteq; [|exact Hretry].
      eapply elem_of_submseteq; [|exact Hretries].
      apply (list_elem_of_fmap_2 fst _ (f, d, a)). by apply elem_of_retries.
    + eapply elem_of_submseteq; [|exact Hmain].
      apply (list_elem_of_fmap_2 fst _ (f, d, a)).
      apply elem_of_mainAttempts. exists b. split; [lia|done].
Qed.

(** X9. When the classification puts no file in any array, because no file
    is allowed or because all of them are left out, the run resolves to the
    empty array: no task enters the pool and the host is not asked for any
    upload, its world is the one the run started in. *)
Theorem nothing_to_upload files w filesByType :
  getFilesByType (allowedFiles files) = inr filesByType →
  concat filesByType = [] →
  (run files w).1 = inr [] ∧ trace (run files w).2 = [] ∧
  world (run files w).2 = w.
Proof.
  intros Hsort Hnil.
  destruct (run_tasks files w _ Hsort) as ((k & Hk) & _ & _).
  assert (mainTasks (trace (run files w).2) = []) as Hnone.
  { rewrite Hk. apply length_zero_iff_nil. rewrite length_entriesOf.
    pose proof (take_concat_length k filesByType) as Hle.
    rewrite Hnil in Hle. simpl in Hle. lia. }
  assert (trace (run files w).2 = []) as Htr.
  { destruct (trace (run files w).2) as [|ev tr] eqn:Htr; [done|]. exfalso.
    destruct (run_event_task files w ev) as [entry Hentry].
    - rewrite Htr. by left.
    - rewrite Htr, Hnone in Hentry. by apply elem_of_nil in Hentry. }
  pose proof (orderly_played _ _ _ _ (run_orderly accountId src dest options files w))
    as Hplayed.
  rewrite Htr in Hplayed. simpl in Hplayed. split_and!; [|done|done].
  destruct (run_cases accountId src dest options files w)
    as [(e & He & _)|[(c & r & st & Hc & Hrun & H)|(c & e & st & Hc & Hrun & H)]];
    [congruence|..]; rewrite Hrun in *; simpl in *.
  - pose proof (finished_results _ _ _ _ _ H) as Hres. rewrite Htr in Hres.
    apply Permutation_nil_r in Hres. by rewrite Hres.
  - destruct (halted_last _ _ _ _ _ H) as (tr & b & f & d & Hlast & _).
    rewrite Htr in Hlast. by destruct tr.
Qed.

(** X10. A run resolves to the empty array exactly when no upload of the
    main pass was rejected with a transient error, and then there is no
    retry pass: every event of the run is of one of the five batches. *)
Theorem no_failure_no_retry files w results :
  (run files w).1 = inr results →
  (results = [] ↔ failedFirst (trace (run files w).2) = []) ∧
  (results = [] → ∀ ev, ev ∈ trace (run files w).2 → batchOf ev < 5).
Proof.
  intros Hrun.
  destruct (run_cases accountId src dest options files w)
    as [(e & _ & Heq)|[(c & r & st & _ & Heq & H)|(c & e & st & _ & Heq & H)]];
    rewrite Heq in *; simpl in *; simplify_eq.
  pose proof (finished_files _ _ _ _ _ H) as Hfiles.
  assert (results = [] ↔ failedFirst (trace st) = []) as Hiff.
  { split.
    - intros ->. simpl in Hfiles. symmetry in Hfiles. by apply fmap_nil_inv in Hfiles.
    - intros Hnone. rewrite Hnone in Hfiles. by destruct results. }
  split; [done|]. intros Hnil%Hiff ev Hev.
  pose proof (finished_batches _ _ _ _ _ H ev Hev) as Hle.
  destruct (decide (batchOf ev = 5)) as [Hfive|]; [exfalso|lia].
  destruct ev as [b f d|b f d a]; simpl in Hfive; subst b.
  - apply elem_of_submittedIn in Hev.
    rewrite (finished_retried _ _ _ _ _ H), Hnil in Hev. by apply elem_of_nil in Hev.
  - apply elem_of_retries in Hev.
    apply (list_elem_of_fmap_2 fst) in Hev.
    rewrite (finished_retries _ _ _ _ _ H), Hnil in Hev. by apply elem_of_nil in Hev.
Qed.

(** X11. [hasUploadErrors] of the array that a run resolves to is [true]
    exactly when an upload of the retry pass was rejected. *)
Theorem run_has_errors files w results :
  (run files w).1 = inr results →
  hasUploadErrors results = true ↔
  ∃ f d e, Settled 5 f d (Some e) ∈ trace (run files w).2.
Proof.
  intros Hrun.
  destruct (run_cases accountId src dest options files w)
    as [(e & _ & Heq)|[(c & r & st & _ & Heq & H)|(c & e & st & _ & Heq & H)]];
    rewrite Heq in *; simpl in *; simplify_eq.
  pose proof (finished_results _ _ _ _ _ H) as Hres.
  pose proof (finished_quiet _ _ _ _ _ H) as Hquiet.
  rewrite Forall_forall in Hquiet.
  unfold hasUploadErrors. rewrite existsb_exists. split.
  - intros (r & Hin%list_elem_of_In & Hfail). rewrite Hres in Hin.
    apply list_elem_of_omap in Hin as ([b f d|b f d a] & Hev & Hr); [done|].
    case_decide; [subst b|done]. destruct (resolved a); [|done].
    injection Hr as <-. destruct a as [e|]; [eauto|done].
  - intros (f & d & e & Hev). exists (outcome f (Some e)). split; [|done].
    apply list_elem_of_In. rewrite Hres. apply list_elem_of_omap.
    exists (Settled 5 f d (Some e)). split; [done|].
    rewrite decide_True by done. by rewrite (Hquiet _ Hev).
Qed.

(** X12. At most two uploads for each allowed file, one in the main pass
    and one in the retry pass, and at most one outcome: the files of the
    uploads of the main pass, the files of the uploads of the retry pass and
    the files of the outcomes of a run that resolves are each, as a multiset,
    among the paths that the classification places for the allowed files, of
    which every allowed file places at most one. So the uploads of a pass
    for a path, and the outcomes for it, are no more than the allowed files
    that place it. *)
Theorem at_most_two_uploads_a_file files w :
  let tr := trace (run files w).2 in
  let tasks := flat_map placed (allowedFiles files) in
  (∀ f, length (placed f) ≤ 1) ∧
  (mainAttempts tr).*1.*1 ⊆+ tasks ∧
  (retries tr).*1.*1 ⊆+ tasks ∧
  (∀ results, (run files w).1 = inr results → map file results ⊆+ tasks) ∧
  (∀ x, length (List.filter (String.eqb x) (mainAttempts tr).*1.*1)
        ≤ length (List.filter (String.eqb x) tasks) ∧
        length (List.filter (String.eqb x) (retries tr).*1.*1)
        ≤ length (List.filter (String.eqb x) tasks)).
Proof.
  intros tr tasks. subst tr tasks.
  assert (∀ x (l k : list string),
            l ⊆+ k → length (List.filter (String.eqb x) l)
                     ≤ length (List.filter (String.eqb x) k)) as Hcount.
  { intros x l k Hsub. induction Hsub as [|y l k _ IH|y z l|y l k _ IH|l k m _ IH1 _ IH2];
      simpl; [done| | | |lia].
    - destruct (String.eqb x y); simpl; lia.
    - destruct (String.eqb x y), (String.eqb x z); simpl; lia.
    - destruct (String.eqb x y); simpl; lia. }
  split; [apply placed_length|].
  destruct (getFilesByType (allowedFiles files)) as [e|filesByType] eqn:Hsort.
  { destruct (run_cases accountId src dest options files w)
      as [(e' & _ & Heq)|[(c & r & st & Hc & _)|(c & e' & st & Hc & _)]];
      [|congruence..].
    rewrite Heq. simpl. split_and!; [apply submseteq_nil_l..|done|].
    intros x. simpl. lia. }
  destruct (run_tasks files w _ Hsort) as ((k & Hk) & Hretry & _).
  destruct (run_orderly accountId src dest options files w) as [_ Hmain Hretries _].
  assert ((mainTasks (trace (run files w).2)).*1
          ⊆+ flat_map placed (allowedFiles files)) as Htasks.
  { rewrite Hk.
    assert (∀ l, (entriesOf l).*1 = l) as Hfst.
    { induction l as [|y l IH]; [done|]. cbn. f_equal. exact IH. }
    rewrite Hfst.
    unfold getFilesByType in Hsort.
    destruct (sortFiles noFiles (allowedFiles files)) as [|b] eqn:Hb; [done|].
    injection Hsort as <-.
    rewrite <- (app_nil_l (flat_map placed (allowedFiles files))).
    change [] with (concat (batches noFiles)) at 1.
    rewrite <- (sortFiles_placed _ _ _ Hb).
    rewrite <- (take_drop k (batches b)) at 2. rewrite concat_app.
    apply submseteq_inserts_r. done. }
  assert ((mainAttempts (trace (run files w).2)).*1.*1
          ⊆+ flat_map placed (allowedFiles files)) as Hfirst.
  { etrans; [|exact Htasks]. by apply fmap_submseteq. }
  assert ((retries (trace (run files w).2)).*1.*1
          ⊆+ flat_map placed (allowedFiles files)) as Hsecond.
  { etrans; [|exact Htasks]. apply fmap_submseteq. by etrans. }
  split_and!; [done|done| |].
  - intros results Hrun.
    destruct (run_cases accountId src dest options files w)
      as [(e & _ & Heq)|[(c & r & st & _ & Heq & H)|(c & e & st & _ & Heq & H)]];
      rewrite Heq in *; simpl in *; simplify_eq.
    rewrite (finished_files _ _ _ _ _ H), <- (finished_retried _ _ _ _ _ H).
    etrans; [|exact Htasks]. by apply fmap_submseteq.
  - intros x. split; by apply Hcount.
Qed.

Lemma leftOut_sortFile f b : leftOut f = true → sortFile b f = inr b.
Proof.
  unfold leftOut, sortFile.
  destruct (inModuleFolder f), (fileName f =? "fields.js")%string,
    (getExt f =? "json")%string, (fileName f =? "meta.json")%string,
    (fileName f =? "fields.json")%string, (includes "fields.js" (siblings f));
    simpl; done.
Qed.

(** X13. A JSON file of a module folder that the callback leaves out makes
    no difference to the run, wherever it is in the list: the run is the run
    on the list without it. *)
Theorem left_out_file_makes_no_difference l1 f l2 w :
  leftOut f = true → run (l1 ++ f :: l2) w = run (l1 ++ l2) w.
Proof.
  intros Hout. apply uploadFiles_ext. unfold allowedFiles.
  rewrite !List.filter_app. simpl.
  destruct (isAllowedExtension f); [|done]. simpl.
  destruct (createIgnoreFilter f); [|done].
  unfold getFilesByType. rewrite sortFiles_without; [done|].
  intros b. by apply leftOut_sortFile.
Qed.

(** X14. In a run that resolves no task is lost: the upload of every task
    of the main pass went through, in the main pass, or the task was retried
    and the outcome of the retry is in the array. *)
Theorem every_task_ends files w results f d :
  (run files w).1 = inr results →
  (f, d) ∈ mainTasks (trace (run files w).2) →
  (∃ b, b < 5 ∧ Settled b f d None ∈ trace (run files w).2) ∨
  (∃ a, Settled 5 f d a ∈ trace (run files w).2 ∧ outcome f a ∈ results).
Proof.
  intros Hrun Htask.
  destruct (run_cases accountId src dest options files w)
    as [(e & _ & Heq)|[(c & r & st & _ & Heq & H)|(c & e & st & _ & Heq & H)]];
    rewrite Heq in *; simpl in *; simplify_eq.
  pose proof (finished_quiet _ _ _ _ _ H) as Hquiet.
  rewrite Forall_forall in Hquiet.
  rewrite <- (finished_attempts _ _ _ _ _ H) in Htask.
  apply list_elem_of_fmap in Htask as ([[f' d'] a] & [= <- <-] & Hatt).
  apply elem_of_mainAttempts in Hatt as (b & Hb & Hev).
  destruct a as [e|]; [right|left; eauto].
  pose proof (Hquiet _ Hev) as Hq. simpl in Hq.
  assert ((f, d) ∈ failedFirst (trace st)) as Hfail.
  { apply elem_of_failedFirst. exists b, e. split_and!; [done| |done].
    by destruct (isFatalError e). }
  rewrite <- (finished_retries _ _ _ _ _ H) in Hfail.
  apply list_elem_of_fmap in Hfail as ([[f' d'] a] & [= <- <-] & Hretry).
  apply elem_of_retries in Hretry. exists a. split; [done|].
  rewrite (finished_results _ _ _ _ _ H). apply list_elem_of_omap.
  exists (Settled 5 f d a). split; [done|].
  rewrite decide_True by done. by rewrite (Hquiet _ Hretry).
Qed.

End Outcomes.

(** ** The names of [create] *)

Section Names.

Lemma length_append (s t : string) :
  String.length (s +:+ t) = String.length s + String.length t.
Proof. induction s as [|c s IH]; [done|]. simpl. by rewrite IH. Qed.

Lemma substring_append (s t : string) :
  String.substring (String.length s) (String.length t) (s +:+ t) = t.
Proof. induction s as [|c s IH]; [apply substring_whole|done]. Qed.

Lemma endsWith_append (s suffix : string) : endsWith (s +:+ suffix) suffix = true.
Proof.
  unfold endsWith. rewrite length_append.
  rewrite (proj2 (Nat.leb_le _ _)) by lia.
  replace (String.length s + String.length suffix - String.length suffix)
    with (String.length s) by lia.
  rewrite substring_append. apply String.eqb_refl.
Qed.

Lemma prefix_refl (s : string) : String.prefix s s = true.
Proof. apply String.prefix_correct, substring_whole. Qed.

(** X15. The folder that [createModule] makes for a module always has a name
    that ends with [.module] and starts with the name that was asked for; the
    name is not changed when it is made from the name of such a folder again;
    and [getFilesByType] takes every file with that folder in its path for a
    file of a module folder, whatever its extension. *)
Theorem created_module_is_a_module_folder `{host : Host} (name : string) :
  endsWith (Create.folderName name) ".module" = true ∧
  String.prefix name (Create.folderName name) = true ∧
  Create.folderName (Create.folderName name) = Create.folderName name ∧
  ∀ file, Create.folderName name ∈ splitLocalPath file →
          inModuleFolder file = true ∧ arrayOf file = 1.
Proof.
  assert (endsWith (Create.folderName name) ".module" = true) as Hends.
  { unfold Create.folderName.
    destruct (endsWith name ".module") eqn:Hname; [done|apply endsWith_append]. }
  split_and!; [done| | |].
  - unfold Create.folderName.
    destruct (endsWith name ".module"); [apply prefix_refl|apply prefix_app].
  - unfold Create.folderName at 1. by rewrite Hends.
  - intros file Hin.
    assert (inModuleFolder file = true) as Hmod.
    { apply inModuleFolder_spec. eauto. }
    split; [done|]. unfold arrayOf. by rewrite Hmod.
Qed.

(** X16. The file that [createTemplate] makes always has a name that ends
    with [.html] and starts with the name that was asked for, and a name that
    was made this way is not changed when it is made again. *)
Theorem created_template_is_html (name : string) :
  endsWith (Create.filename name) ".html" = true ∧
  String.prefix name (Create.filename name) = true ∧
  Create.filename (Create.filename name) = Create.filename name.
Proof.
  assert (endsWith (Create.filename name) ".html" = true) as Hends.
  { unfold Create.filename.
    destruct (endsWith name ".html") eqn:Hname; [done|apply endsWith_append]. }
  split_and!; [done| |].
  - unfold Create.filename.
    destruct (endsWith name ".html"); [apply prefix_refl|apply prefix_app].
  - unfold Create.filename at 1. by rewrite Hends.
Qed.

End Names.

(** * More runs on the demo host *)

Section MoreSampleRuns.
#[local] Existing Instance Demo.host.

Local Abbreviation shop := (uploadFiles 1%Z "shop" "remote" () (walk "shop") []).
Local Abbreviation site := (uploadFiles 1%Z "site" "remote" () (walk "site") []).
Local Abbreviation vault := (uploadFiles 1%Z "vault" "remote" () (walk "vault") []).

Ltac among :=
  apply list_elem_of_In; vm_compute; repeat first [left; reflexivity | right].
Ltac evaluated := vm_compute; reflexivity.

(** In the run on [shop] the retry of [main.css] settles after its task of
    batch 2 entered the pool. *)
Lemma shop_order :
  let tr := trace shop.2 in
  tr = take 8 tr ++ Submitted 2 "shop/main.css" "remote/main.css" :: drop 9 tr ∧
  Settled 5 "shop/main.css" "remote/main.css" None ∈ drop 9 tr ∧
  2 ≤ 5.
Proof.
  intros tr.
  assert (tr = take 8 tr ++ Submitted 2 "shop/main.css" "remote/main.css" :: drop 9 tr)
    as Hsplit by evaluated.
  assert (Settled 5 "shop/main.css" "remote/main.css" None ∈ drop 9 tr) as Hin by among.
  split_and!; [done|done|].
  exact (events_in_batch_order (host := Demo.host) 1%Z "shop" "remote" ()
           (walk "shop") [] _ _ _ _ Hsplit Hin).
Defined.

(** The run on [vault] ends with the rejection of [secret.css] in batch 2:
    [b.html] is not uploaded and nothing is retried. *)
Lemma vault_ends_at_the_fatal_error :
  vault.1 = inl "403" ∧
  ∃ before b f d,
    trace vault.2 = before ++ [Settled b f d (Some "403")] ∧
    isFatalError "403" = true ∧
    (∀ ev, ev ∈ before → quiet ev ∧ batchOf ev ≤ b) ∧
    (b < 5 → retries (trace vault.2) = [] ∧ submittedIn 5 (trace vault.2) = []).
Proof.
  assert (vault.1 = inl "403") as Hrun by evaluated.
  split; [done|].
  destruct (fatal_error_ends_the_run (host := Demo.host) 1%Z "vault" "remote" ()
              (walk "vault") [] "403" Hrun) as [[_ Hnone]|Hlast]; [|exact Hlast].
  vm_compute in Hnone. discriminate Hnone.
Defined.

(** In the run on [site] the retry of [a.js] follows its rejection in the
    main pass. *)
Lemma site_retry_follows_failure :
  Settled 5 "site/a.js" "remote/a.js" None ∈ trace site.2 ∧
  ∃ b e, b < 5 ∧ isFatalError e = false ∧
         Settled b "site/a.js" "remote/a.js" (Some e) ∈ trace site.2.
Proof.
  assert (Settled 5 "site/a.js" "remote/a.js" None ∈ trace site.2) as Hin by among.
  split; [done|].
  exact (retries_follow_transient_failures (host := Demo.host) 1%Z "site" "remote" ()
           (walk "site") [] _ _ _ Hin).
Defined.

(** The arrays of [shop], and the files they are taken from. *)
Lemma shop_arrays :
  let files := allowedFiles (walk "shop") in
  let filesByType :=
    [["shop/logo.png"];
     ["shop/cart.module/meta.json"; "shop/cart.module/fields.json";
      "shop/cart.module/module.css"];
     ["shop/main.css"]; ["shop/index.html"]; ["shop/config.json"]] in
  getFilesByType files = inr filesByType ∧
  filesByType =
    [List.filter (fun f => arrayOf f =? 0) files;
     flat_map placed (List.filter inModuleFolder files);
     List.filter (fun f => arrayOf f =? 2) files;
     List.filter (fun f => arrayOf f =? 3) files;
     List.filter (fun f => arrayOf f =? 4) files].
Proof.
  intros files filesByType.
  assert (getFilesByType files = inr filesByType) as Hsort by evaluated.
  split; [done|].
  exact (arrays_keep_the_order (host := Demo.host) files filesByType Hsort).
Defined.

(** Of the nine allowed files of [shop] seven are in the arrays and two are
    left out: [data.json] of [cart.module] and [fields.json] of
    [legacy.module]. *)
Lemma shop_count :
  let files := allowedFiles (walk "shop") in
  let filesByType :=
    [["shop/logo.png"];
     ["shop/cart.module/meta.json"; "shop/cart.module/fields.json";
      "shop/cart.module/module.css"];
     ["shop/main.css"]; ["shop/index.html"]; ["shop/config.json"]] in
  getFilesByType files = inr filesByType ∧
  List.filter leftOut files
  = ["shop/cart.module/data.json"; "shop/legacy.module/fields.json"] ∧
  length (concat filesByType) + length (List.filter leftOut files) = length files.
Proof.
  intros files filesByType.
  assert (getFilesByType files = inr filesByType) as Hsort by evaluated.
  split_and!; [done|evaluated|].
  exact (arrays_count (host := Demo.host) files filesByType Hsort).
Defined.

(** A folder with a JSON file that is left out, a file with an extension
    that is not allowed and an ignored file: nothing is uploaded. *)
Lemma leftovers_upload_nothing :
  let files := ["shop/cart.module/data.json"; "shop/clip.mov"; "shop/node_modules/x.js"] in
  let run := uploadFiles 1%Z "shop" "remote" () files ["earlier"] in
  getFilesByType (allowedFiles files) = inr [[]; []; []; []; []] ∧
  run.1 = inr [] ∧ trace run.2 = [] ∧ world run.2 = ["earlier"].
Proof.
  intros files run.
  assert (getFilesByType (allowedFiles files) = inr [[]; []; []; []; []]) as Hsort
    by evaluated.
  split; [done|].
  exact (nothing_to_upload (host := Demo.host) 1%Z "shop" "remote" ()
           files ["earlier"] _ Hsort eq_refl).
Defined.

(** Two files of [shop] that are uploaded at once: no outcome, no retry. *)
Lemma logo_and_config_without_retry :
  let run := uploadFiles 1%Z "shop" "remote" () ["shop/logo.png"; "shop/config.json"] [] in
  run.1 = inr [] ∧
  failedFirst (trace run.2) = [] ∧
  ∀ ev, ev ∈ trace run.2 → batchOf ev < 5.
Proof.
  intros run.
  assert (run.1 = inr []) as Hrun by evaluated.
  destruct (no_failure_no_retry (host := Demo.host) 1%Z "shop" "remote" ()
              ["shop/logo.png"; "shop/config.json"] [] [] Hrun) as [Hiff Hquiet].
  split_and!; [done|by apply Hiff|by apply Hquiet].
Defined.

(** The run on [shop] has upload errors: the retry of [index.html] was
    rejected. *)
Lemma shop_has_errors :
  let results := [outcome "shop/main.css" None; outcome "shop/index.html" (Some "503")] in
  shop.1 = inr results ∧
  Settled 5 "shop/index.html" "remote/index.html" (Some "503") ∈ trace shop.2 ∧
  hasUploadErrors results = true.
Proof.
  intros results.
  assert (shop.1 = inr results) as Hrun by evaluated.
  assert (Settled 5 "shop/index.html" "remote/index.html" (Some "503") ∈ trace shop.2)
    as Hin by among.
  split_and!; [done|done|].
  apply (run_has_errors (host := Demo.host) 1%Z "shop" "remote" ()
           (walk "shop") [] results Hrun).
  by exists "shop/index.html", "remote/index.html", "503".
Defined.

(** The run on three files of [shop] is the run without [data.json] of
    [cart.module]. *)
Lemma shop_data_json_left_out :
  let f := "shop/cart.module/data.json" in
  leftOut f = true ∧
  uploadFiles 1%Z "shop" "remote" () (["shop/logo.png"] ++ f :: ["shop/main.css"]) []
  = uploadFiles 1%Z "shop" "remote" () (["shop/logo.png"] ++ ["shop/main.css"]) [].
Proof.
  intros f.
  assert (leftOut f = true) as Hout by evaluated.
  split; [done|].
  exact (left_out_file_makes_no_difference (host := Demo.host) 1%Z "shop" "remote" ()
           ["shop/logo.png"] f ["shop/main.css"] [] Hout).
Defined.

(** In the run on [shop] the task of [index.html] ends: it is a task of the
    main pass, and the run resolves. *)
Lemma shop_index_ends :
  let results := [outcome "shop/main.css" None; outcome "shop/index.html" (Some "503")] in
  shop.1 = inr results ∧
  ("shop/index.html", "remote/index.html") ∈ mainTasks (trace shop.2) ∧
  ((∃ b, b < 5 ∧ Settled b "shop/index.html" "remote/index.html" None ∈ trace shop.2) ∨
   (∃ a, Settled 5 "shop/index.html" "remote/index.html" a ∈ trace shop.2 ∧
         outcome "shop/index.html" a ∈ results)).
Proof.
  intros results.
  assert (shop.1 = inr results) as Hrun by evaluated.
  assert (("shop/index.html", "remote/index.html") ∈ mainTasks (trace shop.2))
    as Htask by among.
  split_and!; [done|done|].
  exact (every_task_ends (host := Demo.host) 1%Z "shop" "remote" ()
           (walk "shop") [] results _ _ Hrun Htask).
Defined.

(** The module [cart] is made in the folder [cart.module], and the style
    sheet of that folder in [shop] is a module file. *)
Lemma cart_module_folder :
  Create.folderName "cart" = "cart.module" ∧
  Create.folderName "cart" ∈ splitLocalPath "shop/cart.module/module.css" ∧
  inModuleFolder "shop/cart.module/module.css" = true ∧
  arrayOf "shop/cart.module/module.css" = 1.
Proof.
  assert (Create.folderName "cart" ∈ splitLocalPath "shop/cart.module/module.css")
    as Hin by among.
  split_and!; [evaluated|done|..];
    apply (created_module_is_a_module_folder (host := Demo.host) "cart"); exact Hin.
Defined.

End MoreSampleRuns.
